(** * AI Content Detector: the background service worker, the feedback
      server and the scan-cache design, verified against the source.

    Source files embedded here:
    - [real_mvp_extension.js], section [background.js]: [initializeModel],
      [handleAnalyzeText], [calculateAIProbability], [handleFeedback],
      [sendFeedbackToBackend], [updateAnalysisStats] and the message listener;
    - [backend/server.js]: the in-memory [feedback] array behind
      [POST /api/feedback], and the background script that the setup script
      in the same file writes ([SetupScript]).
    The content key deriver of the design document has no source; it is
    modelled from the specification in [KeyDeriver].

    Conventions.  A JavaScript string is a list of code units; the model
    covers the code units below 256, one [ascii] each.  A JavaScript number is
    an IEEE 754 binary64 value, that is a primitive [float].  An [async]
    function run alone is a state transformer over the globals of the service
    worker that either returns or throws ([Background]); [async] functions
    that overlap are interleavings of their steps between awaits
    ([Concurrent]).

    Layout.  The embedding and the statements come first ([Text] to
    [Samples]), the facts and the claims after them, and then further
    properties of the code (X1, X2, ...). *)

From Stdlib Require Import List Bool Arith ZArith Lia Ascii String Floats.
Import ListNotations.

Set Warnings "-inexact-float".

(* ================================================================= *)
(** ** Strings *)

Module Text.

Definition jsstring := list ascii.

Definition str (s : string) : jsstring := list_ascii_of_string s.

Definition code (c : ascii) : nat := nat_of_ascii c.

(** The class [[.!?]] of the sentence regular expression. *)
Definition isTerminator (c : ascii) : bool :=
  (code c =? 46) || (code c =? 33) || (code c =? 63).

(** The three places the matcher of [/[^.!?]+[.!?]+/g] can be in: looking for
    the first character of a match, inside the run [[^.!?]+], inside the run
    [[.!?]+].  Both runs are greedy, so a match ends where the terminators
    end, and the next search starts there. *)
Inductive Phase := Seek | Body | Tail.

(** [scan ph acc s]: the matches still to come, [acc] being the characters of
    the match in progress, most recent first.  A body that reaches the end of
    the text without a terminator is no match. *)
Fixpoint scan (ph : Phase) (acc : jsstring) (s : jsstring) : list jsstring :=
  match s with
  | [] => match ph with
          | Tail => [rev acc]
          | _ => []
          end
  | c :: s' =>
      match ph with
      | Seek => if isTerminator c then scan Seek [] s' else scan Body [c] s'
      | Body => if isTerminator c then scan Tail (c :: acc) s'
                else scan Body (c :: acc) s'
      | Tail => if isTerminator c then scan Tail (c :: acc) s'
                else rev acc :: scan Body [c] s'
      end
  end.

(** [text.match(/[^.!?]+[.!?]+/g) || []] *)
Definition matchSentences (text : jsstring) : list jsstring := scan Seek [] text.

(** White space of [String.prototype.trim] among the code units below 256:
    TAB, LF, VT, FF, CR, SPACE and NO-BREAK SPACE. *)
Definition isWhiteSpace (c : ascii) : bool :=
  let n := code c in
  ((9 <=? n) && (n <=? 13)) || (n =? 32) || (n =? 160).

Fixpoint dropWhile (p : ascii -> bool) (s : jsstring) : jsstring :=
  match s with
  | [] => []
  | c :: s' => if p c then dropWhile p s' else s
  end.

Definition trimStart (s : jsstring) : jsstring := dropWhile isWhiteSpace s.
Definition trimEnd (s : jsstring) : jsstring := rev (dropWhile isWhiteSpace (rev s)).

(** [s.trim()] *)
Definition trim (s : jsstring) : jsstring := trimEnd (trimStart s).

(** [String.prototype.toLowerCase] on one code unit below 256: [A-Z] and the
    Latin-1 capitals U+00C0..U+00DE (without the multiplication sign U+00D7)
    move up by 32, everything else stays. *)
Definition lowerChar (c : ascii) : ascii :=
  let n := code c in
  if ((65 <=? n) && (n <=? 90)) ||
     ((192 <=? n) && (n <=? 222) && negb (n =? 215))
  then ascii_of_nat (n + 32) else c.

Definition toLowerCase (s : jsstring) : jsstring := map lowerChar s.

Fixpoint startsWith (p s : jsstring) : bool :=
  match p, s with
  | [], _ => true
  | _ :: _, [] => false
  | a :: p', b :: s' => Ascii.eqb a b && startsWith p' s'
  end.

(** [s.includes(p)] *)
Fixpoint includes (p s : jsstring) : bool :=
  startsWith p s ||
  match s with
  | [] => false
  | _ :: s' => includes p s'
  end.

(** [s.split(' ')]: the pieces between the SPACE code units; always at least
    one piece. *)
Fixpoint splitSpace (cur : jsstring) (s : jsstring) : list jsstring :=
  match s with
  | [] => [rev cur]
  | c :: s' => if code c =? 32 then rev cur :: splitSpace [] s'
               else splitSpace (c :: cur) s'
  end.

Definition split (s : jsstring) : list jsstring := splitSpace [] s.

(** A word character of [\b]: [[A-Za-z0-9_]]. *)
Definition isWordChar (c : ascii) : bool :=
  let n := code c in
  ((65 <=? n) && (n <=? 90)) || ((97 <=? n) && (n <=? 122)) ||
  ((48 <=? n) && (n <=? 57)) || (n =? 95).

(** Case folding of the [i] flag without the [u] flag: only the ASCII letters
    fold onto ASCII letters. *)
Definition foldChar (c : ascii) : ascii :=
  let n := code c in
  if (97 <=? n) && (n <=? 122) then ascii_of_nat (n - 32) else c.

Fixpoint startsWithCI (p s : jsstring) : bool :=
  match p, s with
  | [], _ => true
  | _ :: _, [] => false
  | a :: p', b :: s' => Ascii.eqb (foldChar a) (foldChar b) && startsWithCI p' s'
  end.

(** [\b] holds after [w] at the head of [s] when the character that follows
    is not a word character (every alternative ends in a word character). *)
Definition boundaryAfter (w s : jsstring) : bool :=
  match skipn (List.length w) s with
  | [] => true
  | c :: _ => negb (isWordChar c)
  end.

Definition formalWords : list jsstring :=
  [str "thus"; str "hence"; str "therefore"; str "consequently"].

(** One attempt of [\b(thus|hence|therefore|consequently)\b] at the head of
    [s], [prev] being whether the character before is a word character. *)
Definition formalAt (prev : bool) (s : jsstring) : bool :=
  negb prev && existsb (fun w => startsWithCI w s && boundaryAfter w s) formalWords.

Fixpoint formalFrom (prev : bool) (s : jsstring) : bool :=
  formalAt prev s ||
  match s with
  | [] => false
  | c :: s' => formalFrom (isWordChar c) s'
  end.

(** [/\b(thus|hence|therefore|consequently)\b/i.test(text)] *)
Definition testFormal (text : jsstring) : bool := formalFrom false text.

End Text.

(* ================================================================= *)
(** ** Numbers and the probability heuristic *)

Module Prob.
Import Text.
Local Open Scope float_scope.

Definition isPosZero (x : float) : bool := is_zero x && negb (get_sign x).
Definition isNegZero (x : float) : bool := is_zero x && get_sign x.

(** [Math.max(x, y)]: NaN if either is NaN, [+0] above [-0], else the
    greater. *)
Definition Math_max (x y : float) : float :=
  if is_nan x || is_nan y then nan
  else if isPosZero y && isNegZero x then y
  else if x <? y then y else x.

(** [Math.min(x, y)]: NaN if either is NaN, [-0] below [+0], else the
    smaller. *)
Definition Math_min (x y : float) : float :=
  if is_nan x || is_nan y then nan
  else if isNegZero y && isPosZero x then y
  else if y <? x then y else x.

Definition aiKeywords : list jsstring :=
  [ str "artificial intelligence"; str "machine learning"; str "furthermore";
    str "moreover"; str "delve into"; str "leverage"; str "utilize";
    str "optimize"; str "paradigm"; str "comprehensive"; str "robust";
    str "seamless" ].

(** The sum before the model score is added: base 0.3, 0.1 for each keyword
    found in the lower-cased text, 0.08 for a formal connective, 0.05 for more
    than 25 space-separated pieces. *)
Definition heuristic (text : jsstring) : float :=
  let probability := 0.3 in
  let lowerText := toLowerCase text in
  let probability :=
    fold_left (fun p keyword => if includes keyword lowerText then p + 0.1 else p)
              aiKeywords probability in
  let probability := if testFormal text then probability + 0.08 else probability in
  let probability :=
    if (25 <? List.length (split text))%nat then probability + 0.05 else probability in
  probability.

(** [calculateAIProbability(text, modelScore)] *)
Definition calculateAIProbability (text : jsstring) (modelScore : float) : float :=
  let probability := heuristic text in
  let probability := probability + modelScore * 0.2 in
  Math_min (Math_max probability 0) 1.

Inductive Level := high | medium | low.

(** [probability > 0.7 ? 'high' : probability > 0.4 ? 'medium' : 'low'] *)
Definition levelOf (probability : float) : Level :=
  if 0.7 <? probability then high
  else if 0.4 <? probability then medium
  else low.

(** The value behind a number, read in the specification of binary64: not
    the NaN. *)
Definition notNaN (x : spec_float) : Prop := x <> S754_nan.

(** Neither NaN nor an infinity. *)
Definition finiteSF (x : spec_float) : bool :=
  match x with
  | S754_zero _ | S754_finite _ _ _ => true
  | _ => false
  end.

(** A number that is neither NaN nor an infinity. *)
Definition isFinite (x : float) : bool := finiteSF (Prim2SF x).

End Prob.

(* ================================================================= *)
(** ** background.js: the service worker *)

Module Background.
Import Text Prob.

(** [output[0]] of a classifier call. *)
Record Output := { score : float; label : jsstring }.

(** The text-classification pipeline held in the global [classifier].  [None]
    stands for a call that rejects or whose [output[0]] cannot be read; both
    end in the [catch] of the caller. *)
Definition Classifier := jsstring -> option Output.

(** The object literal built for one analysed sentence. *)
Record AnalysisResult := {
  text : jsstring;
  probability : float;
  level : Level;
  modelScore : float;
  modelLabel : jsstring
}.

(** [analysisStats], default [{ total: 0, high: 0, medium: 0, low: 0 }]. *)
Record Stats := { total : nat; highCount : nat; mediumCount : nat; lowCount : nat }.

(** The [feedback] object of a [submitFeedback] message, and the item stored
    for it, [{ ...feedback, timestamp: Date.now() }]. *)
Record Feedback := {
  fb_text : jsstring;
  fb_probability : float;
  fb_level : Level;
  fb_feedbackType : jsstring;
  fb_url : jsstring
}.

Record FeedbackItem := { item : Feedback; timestamp : Z }.

(** The keys of [chrome.storage.local] the service worker uses; [None] is a
    key that was never set. *)
Record Storage := {
  st_modelLoaded : option bool;
  st_modelLoadTime : option Z;
  st_analysisStats : option Stats;
  st_feedbackData : option (list FeedbackItem)
}.

Inductive Error :=
| ImportFailed          (* the dynamic import of Transformers.js rejected *)
| PipelineFailed        (* pipeline(...) rejected *)
| InferenceFailed       (* a classifier call rejected *)
| StorageFailed         (* a chrome.storage.local call rejected *)
| ModelNotAvailable.    (* new Error('Model not available') *)

Inductive Res (A : Type) :=
| Return (a : A)
| Throw (e : Error).
Arguments Return {A} a.
Arguments Throw {A} e.

(** The globals of the service worker, its storage area, and three traces
    kept for the statements: the argument of every classifier call, the
    number of times the loader body ran, and the bodies of the POSTs the
    backend answered with [response.ok]. *)
Record World := {
  classifier : option Classifier;
  modelLoaded : bool;
  modelLoadingPromise : option (Res unit);
  storage : Storage;
  engineCalls : list jsstring;
  loads : nat;
  delivered : list (list FeedbackItem)
}.

Inductive FetchResult :=
| FetchRejects                 (* network error: fetch throws *)
| FetchResponse (ok : bool).   (* a response arrived *)

(** What the outside does during one operation of the service worker.  The
    [chrome.storage.local] calls of one operation resolve or reject together
    ([storageOk]); a run in which one call of an operation rejects and another
    resolves is outside this record. *)
Record Env := {
  importOk : bool;
  pipeline : option Classifier;
  storageOk : bool;
  fetchResult : FetchResult;
  now : Z;                                   (* Date.now() *)
  hostname : jsstring -> option jsstring     (* new URL(url).hostname, None when it throws *)
}.

Definition initialStorage : Storage :=
  {| st_modelLoaded := None; st_modelLoadTime := None;
     st_analysisStats := None; st_feedbackData := None |}.

(** The state right after the script is evaluated. *)
Definition initialWorld : World :=
  {| classifier := None; modelLoaded := false; modelLoadingPromise := None;
     storage := initialStorage; engineCalls := []; loads := 0; delivered := [] |}.

(** *** The monad of [async] functions run to completion *)

Definition M (A : Type) := World -> Res A * World.

Definition ret {A} (a : A) : M A := fun w => (Return a, w).
Definition throw {A} (e : Error) : M A := fun w => (Throw e, w).

Definition bind {A B} (m : M A) (k : A -> M B) : M B :=
  fun w => match m w with
           | (Return a, w') => k a w'
           | (Throw e, w') => (Throw e, w')
           end.

(** [try { m } catch (error) { h error }] *)
Definition tryCatch {A} (m : M A) (h : Error -> M A) : M A :=
  fun w => match m w with
           | (Return a, w') => (Return a, w')
           | (Throw e, w') => h e w'
           end.

Declare Scope async_scope.
Delimit Scope async_scope with async.
Notation "x <- m ;; k" := (bind m (fun x => k))
  (at level 61, m at next level, right associativity) : async_scope.
Notation "m ;; k" := (bind m (fun _ => k))
  (at level 61, right associativity) : async_scope.
Local Open Scope async_scope.

Definition modify (f : World -> World) : M unit := fun w => (Return tt, f w).

Definition setClassifier (c : Classifier) (w : World) : World :=
  {| classifier := Some c; modelLoaded := modelLoaded w;
     modelLoadingPromise := modelLoadingPromise w; storage := storage w;
     engineCalls := engineCalls w; loads := loads w; delivered := delivered w |}.

Definition setModelLoaded (b : bool) (w : World) : World :=
  {| classifier := classifier w; modelLoaded := b;
     modelLoadingPromise := modelLoadingPromise w; storage := storage w;
     engineCalls := engineCalls w; loads := loads w; delivered := delivered w |}.

Definition setPromise (p : option (Res unit)) (w : World) : World :=
  {| classifier := classifier w; modelLoaded := modelLoaded w;
     modelLoadingPromise := p; storage := storage w;
     engineCalls := engineCalls w; loads := loads w; delivered := delivered w |}.

Definition setStorage (s : Storage) (w : World) : World :=
  {| classifier := classifier w; modelLoaded := modelLoaded w;
     modelLoadingPromise := modelLoadingPromise w; storage := s;
     engineCalls := engineCalls w; loads := loads w; delivered := delivered w |}.

Definition logCall (s : jsstring) (w : World) : World :=
  {| classifier := classifier w; modelLoaded := modelLoaded w;
     modelLoadingPromise := modelLoadingPromise w; storage := storage w;
     engineCalls := engineCalls w ++ [s]; loads := loads w;
     delivered := delivered w |}.

Definition countLoad (w : World) : World :=
  {| classifier := classifier w; modelLoaded := modelLoaded w;
     modelLoadingPromise := modelLoadingPromise w; storage := storage w;
     engineCalls := engineCalls w; loads := S (loads w);
     delivered := delivered w |}.

Definition deliver (body : list FeedbackItem) (w : World) : World :=
  {| classifier := classifier w; modelLoaded := modelLoaded w;
     modelLoadingPromise := modelLoadingPromise w; storage := storage w;
     engineCalls := engineCalls w; loads := loads w;
     delivered := delivered w ++ [body] |}.

(** [await chrome.storage.local.get(...)] *)
Definition storageGet (env : Env) : M Storage :=
  fun w => if storageOk env then (Return (storage w), w) else (Throw StorageFailed, w).

(** [await chrome.storage.local.set(...)] *)
Definition storageSet (env : Env) (f : Storage -> Storage) : M unit :=
  fun w => if storageOk env then (Return tt, setStorage (f (storage w)) w)
           else (Throw StorageFailed, w).

(** [await classifier(input)]: the call is made, then it answers or
    rejects. *)
Definition callClassifier (c : Classifier) (input : jsstring) : M Output :=
  fun w => match c input with
           | Some out => (Return out, logCall input w)
           | None => (Throw InferenceFailed, logCall input w)
           end.

(** *** [initializeModel] *)

Definition warmupText : jsstring := str "This is a test sentence.".

Definition storeLoaded (t : Z) (st : Storage) : Storage :=
  {| st_modelLoaded := Some true; st_modelLoadTime := Some t;
     st_analysisStats := st_analysisStats st; st_feedbackData := st_feedbackData st |}.

Definition storeNotLoaded (st : Storage) : Storage :=
  {| st_modelLoaded := Some false; st_modelLoadTime := st_modelLoadTime st;
     st_analysisStats := st_analysisStats st; st_feedbackData := st_feedbackData st |}.

(** The body of the [async] arrow function whose promise becomes
    [modelLoadingPromise]. *)
Definition loaderBody (env : Env) : M unit :=
  tryCatch
    ((if importOk env then ret tt else throw ImportFailed) ;;
     c <- match pipeline env with
          | Some c => ret c
          | None => throw PipelineFailed
          end ;;
     modify (setClassifier c) ;;
     modify (setModelLoaded true) ;;
     storageSet env (storeLoaded (now env)) ;;
     _ <- callClassifier c warmupText ;;
     ret tt)
    (fun error =>
       modify (setModelLoaded false) ;;
       storageSet env storeNotLoaded ;;
       throw error).

(** [initializeModel()], awaited: an existing promise is returned as it is,
    otherwise the loader runs and its promise is kept in the global.  Nothing
    ever sets the global back to [null]. *)
Definition initializeModel (env : Env) : M unit :=
  fun w => match modelLoadingPromise w with
           | Some settled => (settled, w)
           | None =>
               let (r, w') := loaderBody env (countLoad w) in
               (r, setPromise (Some r) w')
           end.

(** *** [handleAnalyzeText] *)

Definition batchSize : nat := 5.

(** The callback of [batch.map]: short sentences are skipped without a call;
    a failing inference is caught and gives [null]. *)
Definition analyzeSentence (c : Classifier) (sentence : jsstring)
  : M (option AnalysisResult) :=
  let trimmed := trim sentence in
  if List.length trimmed <? 15 then ret None
  else
    tryCatch
      (output <- callClassifier c trimmed ;;
       let score := score output in
       let probability := calculateAIProbability trimmed score in
       ret (Some {| text := trimmed;
                    probability := probability;
                    level := levelOf probability;
                    modelScore := score;
                    modelLabel := label output |}))
      (fun _ => ret None).

(** [await Promise.all(batch.map(f))]: the callbacks start in order. *)
Fixpoint mapM {A B} (f : A -> M B) (l : list A) : M (list B) :=
  match l with
  | [] => ret []
  | a :: l' => b <- f a ;; bs <- mapM f l' ;; ret (b :: bs)
  end.

(** [batchResults.filter(r => r !== null)] *)
Fixpoint nonNull {A} (l : list (option A)) : list A :=
  match l with
  | [] => []
  | Some a :: l' => a :: nonNull l'
  | None :: l' => nonNull l'
  end.

(** [sentences.slice(i, j)] *)
Definition slice {A} (i j : nat) (l : list A) : list A := firstn (j - i) (skipn i l).

(** [for (let i = 0; i < sentences.length; i += batchSize)]; every turn moves
    [i] forward, so [length sentences] turns are enough.  The progress message
    sent after each batch goes to the popup and its failure is ignored; it is
    left out. *)
Fixpoint batchLoop (fuel : nat) (c : Classifier) (sentences : list jsstring)
    (i : nat) (results : list AnalysisResult) : M (list AnalysisResult) :=
  match fuel with
  | O => ret results
  | S fuel' =>
      if i <? List.length sentences then
        let batch := slice i (i + batchSize) sentences in
        batchResults <- mapM (analyzeSentence c) batch ;;
        batchLoop fuel' c sentences (i + batchSize) (results ++ nonNull batchResults)
      else ret results
  end.

Definition noStats : Stats :=
  {| total := 0; highCount := 0; mediumCount := 0; lowCount := 0 |}.

(** [analysisStats.total++; analysisStats[r.level]++] *)
Definition countResult (a : Stats) (r : AnalysisResult) : Stats :=
  match level r with
  | high => {| total := S (total a); highCount := S (highCount a);
               mediumCount := mediumCount a; lowCount := lowCount a |}
  | medium => {| total := S (total a); highCount := highCount a;
                 mediumCount := S (mediumCount a); lowCount := lowCount a |}
  | low => {| total := S (total a); highCount := highCount a;
              mediumCount := mediumCount a; lowCount := S (lowCount a) |}
  end.

Definition storeStats (a : Stats) (st : Storage) : Storage :=
  {| st_modelLoaded := st_modelLoaded st; st_modelLoadTime := st_modelLoadTime st;
     st_analysisStats := Some a; st_feedbackData := st_feedbackData st |}.

(** [updateAnalysisStats(results)] *)
Definition updateAnalysisStats (env : Env) (results : list AnalysisResult) : M unit :=
  st <- storageGet env ;;
  let analysisStats :=
    match st_analysisStats st with Some a => a | None => noStats end in
  storageSet env (storeStats (fold_left countResult results analysisStats)).

(** [handleAnalyzeText(text, tabId)]; [tabId] is not used by the body. *)
Definition handleAnalyzeText (env : Env) (text : jsstring) : M (list AnalysisResult) :=
  (fun w => if modelLoaded w then ret tt w else initializeModel env w) ;;
  (fun w =>
     match classifier w with
     | None => throw ModelNotAvailable w
     | Some c =>
         let sentences := matchSentences text in
         if List.length sentences =? 0 then ret [] w
         else
           (results <- batchLoop (List.length sentences) c sentences 0 [] ;;
            updateAnalysisStats env results ;;
            ret results) w
     end).

(** *** [handleFeedback] and [sendFeedbackToBackend] *)

(** [anonymizeURL(url)] *)
Definition anonymizeURL (env : Env) (url : jsstring) : jsstring :=
  match hostname env url with
  | Some h => h
  | None => str "unknown"
  end.

(** One element of the [feedback] array of the request body. *)
Definition wireItem (env : Env) (f : FeedbackItem) : FeedbackItem :=
  {| item := {| fb_text := fb_text (item f);
                fb_probability := fb_probability (item f);
                fb_level := fb_level (item f);
                fb_feedbackType := fb_feedbackType (item f);
                fb_url := anonymizeURL env (fb_url (item f)) |};
     timestamp := timestamp f |}.

(** [sendFeedbackToBackend(feedbackArray)]: a rejected fetch is caught and a
    response that is not [ok] is only logged, so it never throws. *)
Definition sendFeedbackToBackend (env : Env) (feedbackArray : list FeedbackItem)
  : M unit :=
  match fetchResult env with
  | FetchResponse true => modify (deliver (map (wireItem env) feedbackArray))
  | FetchResponse false => ret tt
  | FetchRejects => ret tt
  end.

Definition storeFeedback (l : list FeedbackItem) (st : Storage) : Storage :=
  {| st_modelLoaded := st_modelLoaded st; st_modelLoadTime := st_modelLoadTime st;
     st_analysisStats := st_analysisStats st; st_feedbackData := Some l |}.

(** [handleFeedback(feedback)]; its [catch] logs and throws the error again. *)
Definition handleFeedback (env : Env) (feedback : Feedback) : M unit :=
  st <- storageGet env ;;
  let feedbackData :=
    match st_feedbackData st with Some l => l | None => [] end in
  let feedbackData := feedbackData ++ [{| item := feedback; timestamp := now env |}] in
  storageSet env (storeFeedback feedbackData) ;;
  if 10 <=? List.length feedbackData then
    sendFeedbackToBackend env feedbackData ;;
    storageSet env (storeFeedback [])
  else ret tt.

(** *** The message listener *)

Inductive Request :=
| AnalyzeText (text : jsstring)
| SubmitFeedback (feedback : Feedback)
| GetModelStatus
| OtherAction.

(** What [sendResponse] is called with. *)
Inductive Response :=
| InvalidSender                               (* { success: false, error: 'Invalid sender' } *)
| AnalysisDone (result : list AnalysisResult) (* { success: true, result } *)
| Failed (error : Error)                      (* { success: false, error: error.message } *)
| FeedbackDone                                (* { success: true } *)
| ModelStatus (loaded loading : bool)         (* { success: true, loaded, loading } *)
| NoResponse.

Definition isSome {A} (o : option A) : bool :=
  match o with Some _ => true | None => false end.

(** The [chrome.runtime.onMessage] listener; [fromTab] is [!!sender.tab]. *)
Definition onMessage (env : Env) (fromTab : bool) (request : Request)
  : World -> Response * World :=
  fun w =>
    if negb fromTab then (InvalidSender, w)
    else match request with
         | AnalyzeText text =>
             match handleAnalyzeText env text w with
             | (Return result, w') => (AnalysisDone result, w')
             | (Throw error, w') => (Failed error, w')
             end
         | SubmitFeedback feedback =>
             match handleFeedback env feedback w with
             | (Return _, w') => (FeedbackDone, w')
             | (Throw error, w') => (Failed error, w')
             end
         | GetModelStatus =>
             (ModelStatus (modelLoaded w)
                          (isSome (modelLoadingPromise w) && negb (modelLoaded w)), w)
         | OtherAction => (NoResponse, w)
         end.

End Background.

(* ================================================================= *)
(** ** One scan, as a function of the classifier and the text *)

Module Scan.
Import Text Prob Background.
Local Open Scope async_scope.

(** Whether the callback of [batch.map] reaches the classifier. *)
Definition qualifies (sentence : jsstring) : bool :=
  negb (List.length (trim sentence) <? 15).

(** The value the callback of [batch.map] resolves to. *)
Definition scored (c : Classifier) (sentence : jsstring) : option AnalysisResult :=
  if qualifies sentence then
    match c (trim sentence) with
    | Some output =>
        Some {| text := trim sentence;
                probability := calculateAIProbability (trim sentence) (score output);
                level := levelOf (calculateAIProbability (trim sentence) (score output));
                modelScore := score output;
                modelLabel := label output |}
    | None => None
    end
  else None.

(** The arguments of the classifier calls one pass over [sentences] makes. *)
Definition callsOf (sentences : list jsstring) : list jsstring :=
  map trim (filter qualifies sentences).

(** The result list one pass over [sentences] builds. *)
Definition analyzeAll (c : Classifier) (sentences : list jsstring) : list AnalysisResult :=
  nonNull (map (scored c) sentences).

(** The state with the calls [l] added to its trace. *)
Definition addCalls (l : list jsstring) (w : World) : World :=
  {| classifier := classifier w; modelLoaded := modelLoaded w;
     modelLoadingPromise := modelLoadingPromise w; storage := storage w;
     engineCalls := engineCalls w ++ l; loads := loads w;
     delivered := delivered w |}.

(** The statistics object after counting [results] into the stored one. *)
Definition statsAfter (results : list AnalysisResult) (st : Storage) : Stats :=
  fold_left countResult results
            (match st_analysisStats st with Some a => a | None => noStats end).

(** The state a scan leaves when the model was available: the calls are
    logged and, when there was a sentence at all, the statistics are
    rewritten. *)
Definition afterScan (c : Classifier) (text : jsstring) (w : World) : World :=
  let sentences := matchSentences text in
  if List.length sentences =? 0 then w
  else
    let w1 := addCalls (callsOf sentences) w in
    setStorage (storeStats (statsAfter (analyzeAll c sentences) (storage w1))
                           (storage w1)) w1.

(** The part of [handleAnalyzeText] after the model check. *)
Definition scanBody (env : Env) (text : jsstring) : M (list AnalysisResult) :=
  fun w =>
    match classifier w with
    | None => throw ModelNotAvailable w
    | Some c =>
        let sentences := matchSentences text in
        if List.length sentences =? 0 then ret [] w
        else
          (results <- batchLoop (List.length sentences) c sentences 0 [] ;;
           updateAnalysisStats env results ;;
           ret results) w
    end.

(** Half-open intervals [(a, b)] of code unit offsets, each non-empty, each
    starting at or after the end of the one before, all between [lo] and
    [hi]. *)
Fixpoint disjointAscending (lo hi : nat) (spans : list (nat * nat)) : Prop :=
  match spans with
  | [] => lo <= hi
  | (a, b) :: rest => lo <= a /\ a < b /\ disjointAscending b hi rest
  end.

End Scan.

(* ================================================================= *)
(** ** Requests that overlap in time *)

(** The service worker is one thread.  An [async] function runs without
    interruption up to its next [await]; there another function may run.  A
    task is therefore a sequence of atomic steps, and a run of the worker is
    an interleaving of the steps of its tasks, chosen by a schedule. *)

Module Concurrent.
Import Text Prob Background Scan.

(** Who made a classifier call: the loader (the warm-up) or the request with
    a given index. *)
Inductive Caller :=
| ByLoader
| ByRequest (k : nat).

(** The global [modelLoadingPromise] together with the [async] function
    behind it: [null], pending at one of the awaits of the loader, or
    settled. *)
Inductive LoadingPromise :=
| NoPromise
| AwaitingImport
| AwaitingPipeline
| AwaitingStore
| AwaitingWarmup
| AwaitingCatchStore (error : Error)
| Settled (r : Res unit).

Record Globals := {
  classifier : option Classifier;
  modelLoaded : bool;
  modelLoadingPromise : LoadingPromise;
  storage : Storage;
  engineCalls : list (Caller * jsstring);
  loads : nat
}.

(** Where a call of [handleAnalyzeText] stands. *)
Inductive RequestPc :=
| Arrived                                   (* the message is there, the function not entered *)
| AwaitModel                                (* at [await initializeModel()] *)
| AwaitBatch (i : nat) (results : list AnalysisResult)
             (pending : list (option AnalysisResult))
                                            (* at [await Promise.all(...)] of the batch at [i] *)
| AwaitStatsGet (results : list AnalysisResult)
| AwaitStatsSet (results : list AnalysisResult) (stats : Stats)
| Done (outcome : Res (list AnalysisResult)).

Record Request := { text : jsstring; pc : RequestPc }.

Record Config := {
  globals : Globals;
  requests : list Request
}.

Inductive Task :=
| Boot            (* an [onInstalled] or [onStartup] listener calling [initializeModel()] *)
| Loader          (* the function behind [modelLoadingPromise] *)
| Req (k : nat).  (* the call of [handleAnalyzeText] for request [k] *)

Definition freshGlobals : Globals :=
  {| classifier := None; modelLoaded := false; modelLoadingPromise := NoPromise;
     storage := initialStorage; engineCalls := []; loads := 0 |}.

Definition withPromise (p : LoadingPromise) (g : Globals) : Globals :=
  {| classifier := classifier g; modelLoaded := modelLoaded g;
     modelLoadingPromise := p; storage := storage g;
     engineCalls := engineCalls g; loads := loads g |}.

Definition withModel (c : Classifier) (g : Globals) : Globals :=
  {| classifier := Some c; modelLoaded := true;
     modelLoadingPromise := modelLoadingPromise g; storage := storage g;
     engineCalls := engineCalls g; loads := loads g |}.

Definition withStorage (st : Storage) (g : Globals) : Globals :=
  {| classifier := classifier g; modelLoaded := modelLoaded g;
     modelLoadingPromise := modelLoadingPromise g; storage := st;
     engineCalls := engineCalls g; loads := loads g |}.

Definition logCalls (who : Caller) (inputs : list jsstring) (g : Globals) : Globals :=
  {| classifier := classifier g; modelLoaded := modelLoaded g;
     modelLoadingPromise := modelLoadingPromise g; storage := storage g;
     engineCalls := engineCalls g ++ map (fun s => (who, s)) inputs;
     loads := loads g |}.

(** The synchronous part of [initializeModel()]: an existing promise is
    returned; otherwise the loader starts and stops at its first await. *)
Definition startLoader (g : Globals) : Globals :=
  match modelLoadingPromise g with
  | NoPromise =>
      {| classifier := classifier g; modelLoaded := modelLoaded g;
         modelLoadingPromise := AwaitingImport; storage := storage g;
         engineCalls := engineCalls g; loads := S (loads g) |}
  | _ => g
  end.

(** Entering the [catch] of the loader: [modelLoaded = false], then the await
    of [chrome.storage.local.set]. *)
Definition enterCatch (error : Error) (g : Globals) : Globals :=
  {| classifier := classifier g; modelLoaded := false;
     modelLoadingPromise := AwaitingCatchStore error; storage := storage g;
     engineCalls := engineCalls g; loads := loads g |}.

(** One step of the loader: the operation it awaits completes and it runs to
    its next await. *)
Definition stepLoader (env : Env) (g : Globals) : Globals :=
  match modelLoadingPromise g with
  | AwaitingImport =>
      if importOk env then withPromise AwaitingPipeline g
      else enterCatch ImportFailed g
  | AwaitingPipeline =>
      match pipeline env with
      | Some c => withPromise AwaitingStore (withModel c g)
      | None => enterCatch PipelineFailed g
      end
  | AwaitingStore =>
      if storageOk env then
        withPromise AwaitingWarmup
          (logCalls ByLoader [warmupText]
             (withStorage (storeLoaded (now env) (storage g)) g))
      else enterCatch StorageFailed g
  | AwaitingWarmup =>
      match classifier g with
      | Some c =>
          match c warmupText with
          | Some _ => withPromise (Settled (Return tt)) g
          | None => enterCatch InferenceFailed g
          end
      | None => enterCatch InferenceFailed g
      end
  | AwaitingCatchStore error =>
      if storageOk env then
        withPromise (Settled (Throw error))
                    (withStorage (storeNotLoaded (storage g)) g)
      else withPromise (Settled (Throw StorageFailed)) g
  | NoPromise | Settled _ => g
  end.

(** Starting the batch at [i]: every callback runs up to its classifier call,
    so the calls of the batch are made now, in order. *)
Definition issueBatch (k : nat) (sentences : list jsstring) (i : nat)
    (results : list AnalysisResult) (g : Globals) : RequestPc * Globals :=
  let batch := slice i (i + batchSize) sentences in
  match classifier g with
  | Some c =>
      (AwaitBatch i results (map (scored c) batch),
       logCalls (ByRequest k) (callsOf batch) g)
  | None => (AwaitBatch i results (map (fun _ => None) batch), g)
  end.

(** [handleAnalyzeText] from the classifier check to its next await. *)
Definition startScan (k : nat) (text : jsstring) (g : Globals) : RequestPc * Globals :=
  match classifier g with
  | None => (Done (Throw ModelNotAvailable), g)
  | Some _ =>
      let sentences := matchSentences text in
      if List.length sentences =? 0 then (Done (Return []), g)
      else issueBatch k sentences 0 [] g
  end.

(** One step of request [k]: what it awaits completes (when it can) and it
    runs to its next await. *)
Definition stepRequest (env : Env) (k : nat) (r : Request) (g : Globals)
  : RequestPc * Globals :=
  match pc r with
  | Arrived =>
      if modelLoaded g then startScan k (text r) g
      else (AwaitModel, startLoader g)
  | AwaitModel =>
      match modelLoadingPromise g with
      | Settled (Return _) => startScan k (text r) g
      | Settled (Throw error) => (Done (Throw error), g)
      | _ => (AwaitModel, g)
      end
  | AwaitBatch i results pending =>
      let sentences := matchSentences (text r) in
      let results' := results ++ nonNull pending in
      if i + batchSize <? List.length sentences then
        issueBatch k sentences (i + batchSize) results' g
      else (AwaitStatsGet results', g)
  | AwaitStatsGet results =>
      if storageOk env then (AwaitStatsSet results (statsAfter results (storage g)), g)
      else (Done (Throw StorageFailed), g)
  | AwaitStatsSet results stats =>
      if storageOk env then
        (Done (Return results), withStorage (storeStats stats (storage g)) g)
      else (Done (Throw StorageFailed), g)
  | Done outcome => (Done outcome, g)
  end.

Fixpoint setNth {A} (k : nat) (a : A) (l : list A) : list A :=
  match l, k with
  | [], _ => []
  | _ :: l', O => a :: l'
  | b :: l', S k' => b :: setNth k' a l'
  end.

(** One turn of the event loop for the chosen task. *)
Definition step (env : Env) (cfg : Config) (t : Task) : Config :=
  match t with
  | Boot => {| globals := startLoader (globals cfg); requests := requests cfg |}
  | Loader => {| globals := stepLoader env (globals cfg); requests := requests cfg |}
  | Req k =>
      match nth_error (requests cfg) k with
      | None => cfg
      | Some r =>
          let (pc', g') := stepRequest env k r (globals cfg) in
          {| globals := g';
             requests := setNth k {| text := text r; pc := pc' |} (requests cfg) |}
      end
  end.

Definition run (env : Env) (schedule : list Task) (cfg : Config) : Config :=
  fold_left (step env) schedule cfg.

(** [n] requests for the same text reach a worker that has just started. *)
Definition arrivals (n : nat) (text : jsstring) : Config :=
  {| globals := freshGlobals;
     requests := repeat {| text := text; pc := Arrived |} n |}.

Definition isDone (r : Request) : bool :=
  match pc r with Done _ => true | _ => false end.

Definition allDone (cfg : Config) : bool := forallb isDone (requests cfg).

(** The classifier calls of one caller, in the order they were made. *)
Definition eqbCaller (a b : Caller) : bool :=
  match a, b with
  | ByLoader, ByLoader => true
  | ByRequest i, ByRequest j => i =? j
  | _, _ => false
  end.

Definition callsBy (who : Caller) (log : list (Caller * jsstring)) : list jsstring :=
  map snd (filter (fun e => eqbCaller (fst e) who) log).

(** The classifier calls made by requests, the warm-up left aside. *)
Definition requestCalls (log : list (Caller * jsstring)) : list jsstring :=
  map snd (filter (fun e => negb (eqbCaller (fst e) ByLoader)) log).

End Concurrent.

(* ================================================================= *)
(** ** What stays true while requests overlap *)

Module Invariants.
Import Text Prob Background Scan Concurrent.

(** Everything the loader and the statistics need from outside works, and
    the model the pipeline yields is [c]. *)
Definition Healthy (env : Env) (c : Classifier) : Prop :=
  importOk env = true /\ pipeline env = Some c /\ storageOk env = true /\
  c warmupText <> None.

(** What holds of the globals under a healthy environment, by the state of
    the promise. *)
Definition GlobalsOk (c : Classifier) (g : Globals) : Prop :=
  match modelLoadingPromise g with
  | NoPromise =>
      classifier g = None /\ modelLoaded g = false /\ loads g = 0 /\
      callsBy ByLoader (engineCalls g) = []
  | AwaitingImport | AwaitingPipeline =>
      classifier g = None /\ modelLoaded g = false /\ loads g = 1 /\
      callsBy ByLoader (engineCalls g) = []
  | AwaitingStore =>
      classifier g = Some c /\ modelLoaded g = true /\ loads g = 1 /\
      callsBy ByLoader (engineCalls g) = []
  | AwaitingWarmup | Settled (Return _) =>
      classifier g = Some c /\ modelLoaded g = true /\ loads g = 1 /\
      callsBy ByLoader (engineCalls g) = [warmupText]
  | AwaitingCatchStore _ | Settled (Throw _) => False
  end.

(** What holds of a request of [text], [calls] being the classifier calls it
    has made so far and [model] the classifier global. *)
Definition RequestOk (c : Classifier) (text : jsstring) (r : Request)
    (model : option Classifier) (calls : list jsstring) : Prop :=
  let sentences := matchSentences text in
  Concurrent.text r = text /\
  match pc r with
  | Arrived | AwaitModel => calls = []
  | AwaitBatch i results pending =>
      model = Some c /\
      results = analyzeAll c (firstn i sentences) /\
      pending = map (scored c) (slice i (i + batchSize) sentences) /\
      calls = callsOf (firstn (i + batchSize) sentences)
  | AwaitStatsGet results | AwaitStatsSet results _ =>
      results = analyzeAll c sentences /\ calls = callsOf sentences
  | Done (Return results) =>
      results = analyzeAll c sentences /\ calls = callsOf sentences
  | Done (Throw _) => False
  end.

(** A logged call of a request carries the index of one of the [n]
    requests. *)
Definition tagBelow (n : nat) (e : Caller * jsstring) : Prop :=
  match fst e with
  | ByLoader => True
  | ByRequest k => k < n
  end.

(** The invariant of a run that began with requests for [text] on a worker
    that had just started. *)
Definition Inv (c : Classifier) (text : jsstring) (n : nat) (cfg : Config) : Prop :=
  GlobalsOk c (globals cfg) /\
  List.length (requests cfg) = n /\
  Forall (tagBelow n) (engineCalls (globals cfg)) /\
  forall k r, nth_error (requests cfg) k = Some r ->
              RequestOk c text r (classifier (globals cfg))
                        (callsBy (ByRequest k) (engineCalls (globals cfg))).

(** What a step of request [k] keeps and what it adds: the globals stay in
    order, the request stays in order, and the log grows by calls of that
    request only. *)
Definition StepOk (c : Classifier) (text : jsstring) (k : nat) (r : Request)
    (g : Globals) (out : RequestPc * Globals) : Prop :=
  GlobalsOk c (snd out) /\
  RequestOk c text {| Concurrent.text := Concurrent.text r; pc := fst out |}
            (classifier (snd out))
            (callsBy (ByRequest k) (engineCalls (snd out))) /\
  (classifier g = Some c -> classifier (snd out) = Some c) /\
  exists added,
    engineCalls (snd out) = engineCalls g ++ map (fun s => (ByRequest k, s)) added.

(** The model is there and its promise is fulfilled. *)
Definition Ready (c : Classifier) (g : Globals) : Prop :=
  modelLoaded g = true /\ classifier g = Some c /\
  modelLoadingPromise g = Settled (Return tt).

(** A bound on the steps a request still needs once the model is there. *)
Definition stepsLeft (text : jsstring) (p : RequestPc) : nat :=
  let n := List.length (matchSentences text) in
  match p with
  | Arrived | AwaitModel => n + 4
  | AwaitBatch i _ _ => (n - i) + 3
  | AwaitStatsGet _ => 2
  | AwaitStatsSet _ _ => 1
  | Done _ => 0
  end.

(** [m] turns for each of the requests [ks], one request after the other. *)
Definition inTurn (m : nat) (ks : list nat) : list Task :=
  flat_map (fun k => repeat (Req k) m) ks.

(** Loading first and then serving the requests one after the other. *)
Definition oneByOne (n : nat) (text : jsstring) : list Task :=
  [Boot; Loader; Loader; Loader; Loader] ++
  inTurn (List.length (matchSentences text) + 4) (seq 0 n).

End Invariants.

(* ================================================================= *)
(** ** JavaScript values as they cross the message channel and the HTTP API *)

Module JS.
Import Text Prob.

#[local] Unset Elimination Schemes.
Inductive JSValue :=
| JSUndefined
| JSNull
| JSBool (b : bool)
| JSNumber (x : float)
| JSString (s : jsstring)
| JSArray (items : list JSValue)
| JSObject (fields : list (jsstring * JSValue)).
#[local] Set Elimination Schemes.

Fixpoint eqbString (a b : jsstring) : bool :=
  match a, b with
  | [], [] => true
  | x :: a', y :: b' => Ascii.eqb x y && eqbString a' b'
  | _, _ => false
  end.

Fixpoint lookup (name : jsstring) (fields : list (jsstring * JSValue)) : JSValue :=
  match fields with
  | [] => JSUndefined
  | (k, v) :: rest => if eqbString k name then v else lookup name rest
  end.

(** [v.name] for a property that is not built in: [undefined] unless [v] is an
    object that has it. *)
Definition getField (name : jsstring) (v : JSValue) : JSValue :=
  match v with
  | JSObject fields => lookup name fields
  | _ => JSUndefined
  end.

Definition fieldNames (v : JSValue) : list jsstring :=
  match v with
  | JSObject fields => map fst fields
  | _ => []
  end.

(** [ToBoolean] *)
Definition truthy (v : JSValue) : bool :=
  match v with
  | JSUndefined | JSNull => false
  | JSBool b => b
  | JSNumber x => negb (is_zero x || is_nan x)
  | JSString s => negb (List.length s =? 0)
  | JSArray _ | JSObject _ => true
  end.

(** [a || b] *)
Definition orElse (a b : JSValue) : JSValue := if truthy a then a else b.

End JS.

(* ================================================================= *)
(** ** backend/server.js: the feedback store *)

Module Server.
Import Text JS.
Local Open Scope float_scope.

(** One element of the [feedback] array. *)
Record Entry := {
  text_hash : JSValue;
  length : JSValue;
  model_version : JSValue;
  score : JSValue;
  feedback : JSValue;
  timestamp : jsstring
}.

(** The module-level [let feedback = []]. *)
Definition Store := list Entry.

(** The answer [{ status: 'received', count: feedback.length }]. *)
Record Receipt := { status : jsstring; count : nat }.

(** The body of the [POST /api/feedback] handler on [req.body] (with
    [bodyParser.json()] an object or an array, [{}] when nothing was parsed)
    and the clock reading [new Date().toISOString()]: the entry is pushed and
    the answer carries the new length.  Nothing is ever removed. *)
Definition postFeedback (data : JSValue) (isoNow : jsstring) (store : Store)
  : Store * Receipt :=
  let store' :=
    store ++ [ {| text_hash := orElse (getField (str "text_hash") data) (JSString []);
                  length := orElse (getField (str "text_length") data) (JSNumber 0);
                  model_version := orElse (getField (str "model_version") data)
                                          (JSString (str "v0"));
                  score := orElse (getField (str "score") data) (JSNumber 0);
                  feedback := orElse (getField (str "feedback") data) (JSString []);
                  timestamp := isoNow |} ] in
  (store', {| status := str "received"; count := List.length store' |}).

(** [GET /api/feedback] answers [{ count: feedback.length, feedback }]. *)
Definition getFeedback (store : Store) : nat * Store := (List.length store, store).

(** The store after a sequence of POSTs, each with its body and clock
    reading. *)
Definition postAll (posts : list (JSValue * jsstring)) (store : Store) : Store :=
  fold_left (fun st p => fst (postFeedback (fst p) (snd p) st)) posts store.

End Server.

(* ================================================================= *)
(** ** The values the scan operation hands to its caller *)

Module Wire.
Import Text Prob JS Background.

Definition levelName (l : Level) : jsstring :=
  match l with
  | high => str "high"
  | medium => str "medium"
  | low => str "low"
  end.

(** The object literal [{ text, probability, level, modelScore, modelLabel }]
    of [handleAnalyzeText]. *)
Definition resultObject (r : AnalysisResult) : JSValue :=
  JSObject [ (str "text", JSString (text r));
             (str "probability", JSNumber (probability r));
             (str "level", JSString (levelName (level r)));
             (str "modelScore", JSNumber (modelScore r));
             (str "modelLabel", JSString (modelLabel r)) ].

(** The array [results] that [handleAnalyzeText] returns. *)
Definition returnValue (results : list AnalysisResult) : JSValue :=
  JSArray (map resultObject results).

Definition resultFields : list jsstring :=
  [str "text"; str "probability"; str "level"; str "modelScore"; str "modelLabel"].

(** The shape C7 gives the value of the scan operation: a record with a
    highlight list, a ruleset version string and a [servedFromCache] flag. *)
Definition ScanRecord (v : JSValue) : Prop :=
  exists highlights version served,
    getField (str "highlights") v = JSArray highlights /\
    getField (str "rulesetVersion") v = JSString version /\
    getField (str "servedFromCache") v = JSBool served.

(** The number that stands for a count or an offset. *)
Definition natNumber (n : nat) : float := of_uint63 (Uint63.of_Z (Z.of_nat n)).

(** The shape C8 gives one highlight of a scan of [text]: two offsets with
    [0 <= startOffset < endOffset <= len(text)]. *)
Definition OffsetHighlight (text : jsstring) (v : JSValue) : Prop :=
  exists startOffset endOffset : nat,
    getField (str "startOffset") v = JSNumber (natNumber startOffset) /\
    getField (str "endOffset") v = JSNumber (natNumber endOffset) /\
    startOffset < endOffset <= List.length text.

End Wire.

(* ================================================================= *)
(** ** The content key deriver of the scan-cache design *)

Module KeyDeriver.
Import Text.

(** Modelled from the spec: the Content Key Deriver (section 4.1) is in no
    source file of the repository.  "Collapse consecutive whitespace to a
    single space": every maximal run of white space becomes one SPACE;
    [inRun] tells that the character before was white space. *)
Fixpoint collapseFrom (inRun : bool) (s : jsstring) : jsstring :=
  match s with
  | [] => []
  | c :: s' =>
      if isWhiteSpace c then
        if inRun then collapseFrom true s'
        else " "%char :: collapseFrom true s'
      else c :: collapseFrom false s'
  end.

(** Modelled from the spec: the Content Key Deriver is in no source file;
    the first step of its normalization. *)
Definition collapse (s : jsstring) : jsstring := collapseFrom false s.

(** Modelled from the spec: the Content Key Deriver is in no source file.
    "Collapse consecutive whitespace to a single space, trim leading/trailing
    whitespace"; case is preserved. *)
Definition normalize (t : jsstring) : jsstring := trim (collapse t).

Section Hashing.

(** The fixed-length fingerprints and the collision-resistant hash function
    of the design (a 256-bit cryptographic hash); the deriver only applies
    it. *)
Variable Key : Type.
Variable hash : jsstring -> Key.

(** Modelled from the spec: the Content Key Deriver is in no source file.
    "Hash the normalized text; the output is the key's text component." *)
Definition deriveKey (text : jsstring) : Key := hash (normalize text).

End Hashing.

(** A string in which white space occurs only as single SPACE characters;
    [afterWs] tells that the character before was white space. *)
Fixpoint tidyFrom (afterWs : bool) (s : jsstring) : Prop :=
  match s with
  | [] => True
  | c :: s' =>
      if isWhiteSpace c then afterWs = false /\ c = " "%char /\ tidyFrom true s'
      else tidyFrom false s'
  end.

(** The string does not begin with white space. *)
Definition noLeadingWs (s : jsstring) : Prop :=
  match s with
  | [] => True
  | c :: _ => isWhiteSpace c = false
  end.

End KeyDeriver.

(* ================================================================= *)
(** ** Concrete inputs *)

Module Demo.
Import Text Prob Background.
Local Open Scope float_scope.

(** A classifier that answers every input with the same score. *)
Definition steadyClassifier : Classifier :=
  fun _ => Some {| score := 0.9; label := str "POSITIVE" |}.

(** Everything outside works, except that the backend cannot be reached. *)
Definition calmEnv : Env :=
  {| importOk := true; pipeline := Some steadyClassifier; storageOk := true;
     fetchResult := FetchRejects; now := 1700000000000%Z;
     hostname := fun _ => None |}.

(** The state once the model has been loaded. *)
Definition loadedWorld : World := snd (initializeModel calmEnv initialWorld).

Definition oneSentence : jsstring := str "This is a fairly long sentence.".

Definition twoSentences : jsstring :=
  str "This is a fairly long sentence. Short. Another considerably long one!".

Definition keywordSentence : jsstring :=
  str "We leverage machine learning, thus the result is robust.".

(** The model cannot be loaded: [pipeline(...)] rejects. *)
Definition brokenEnv : Env :=
  {| importOk := true; pipeline := None; storageOk := true;
     fetchResult := FetchRejects; now := 1700000000000%Z;
     hostname := fun _ => None |}.

Definition thumbsUp : Feedback :=
  {| fb_text := oneSentence; fb_probability := 0.48; fb_level := medium;
     fb_feedbackType := str "agree"; fb_url := str "https://example.org/post" |}.

(** Nine feedback items are waiting in the storage area. *)
Definition nineWaiting : World :=
  setStorage (storeFeedback (repeat {| item := thumbsUp; timestamp := 1699999999000%Z |} 9)
                            (storage loadedWorld))
             loadedWorld.

End Demo.

(* ================================================================= *)
(** ** The claims of the specification, stated on the code *)

Module Statements.
Import Text Prob JS Background Scan Demo.



(** The statement of C10 about the range at one input: the probability lies
    between 0 and 1. *)
Definition ProbabilityInRange (text : jsstring) (s : float) : Prop :=
  let p := calculateAIProbability text s in
  (0 <=? p)%float = true /\ (p <=? 1)%float = true.

(** *** The feedback store *)

(** The statement of C4 for a capacity and a sequence of POSTs to the empty
    store: once more entries than the capacity were inserted, the store holds
    at most the capacity. *)
Definition EvictionBound (capacity : nat) (posts : list (JSValue * jsstring)) : Prop :=
  capacity < List.length posts ->
  List.length (Server.postAll posts []) <= capacity.

(** A request body [{ text_hash: h }]. *)
Definition bodyWithHash (h : string) : JSValue :=
  JSObject [ (str "text_hash", JSString (str h)) ].

(** Three POSTs with distinct hashes, one second apart. *)
Definition threePosts : list (JSValue * jsstring) :=
  [ (bodyWithHash "a1", str "2024-01-01T00:00:00.000Z");
    (bodyWithHash "b2", str "2024-01-01T00:00:01.000Z");
    (bodyWithHash "c3", str "2024-01-01T00:00:02.000Z") ].

(** *** Requests that overlap *)

Import Concurrent.

(** The statement of C2 for one run: when the [n] requests for the same text
    are done, exactly one classifier call was made for them (the warm-up of
    the loader is not counted) and all of them got the same answer. *)
Definition DedupUnderConcurrency (env : Env) (n : nat) (text : jsstring)
    (schedule : list Task) : Prop :=
  let cfg := run env schedule (arrivals n text) in
  allDone cfg = true ->
  List.length (requestCalls (engineCalls (globals cfg))) = 1 /\
  forall j k rj rk,
    nth_error (requests cfg) j = Some rj -> nth_error (requests cfg) k = Some rk ->
    pc rj = pc rk.

(** Two requests arrive before the model is there; the loader runs; then each
    request is served. *)
Definition twoOverlapping : list Task :=
  [Req 0; Req 1; Loader; Loader; Loader; Loader;
   Req 0; Req 0; Req 0; Req 0; Req 1; Req 1; Req 1; Req 1].

End Statements.

(* ================================================================= *)
(** ** Shapes of sentences and of result texts *)

Module Shapes.
Import Text Prob Background Scan.

(** No code unit of [s] is one of [. ! ?]. *)
Definition noTerminator (s : jsstring) : bool :=
  forallb (fun c => negb (isTerminator c)) s.

(** Every code unit of [s] is one of [. ! ?]. *)
Definition allTerminators (s : jsstring) : bool := forallb isTerminator s.

(** What one match of [/[^.!?]+[.!?]+/] looks like: a non-empty stretch
    without terminator followed by a non-empty stretch of terminators. *)
Definition isSentence (s : jsstring) : Prop :=
  exists body tail,
    s = body ++ tail /\ body <> [] /\ tail <> [] /\
    noTerminator body = true /\ allTerminators tail = true.

(** What the matcher holds in [acc] (most recent first) in each phase. *)
Definition pendingOk (ph : Phase) (acc : jsstring) : Prop :=
  match ph with
  | Seek => True
  | Body => acc <> [] /\ noTerminator (rev acc) = true
  | Tail => isSentence (rev acc)
  end.

(** The last code unit of [s] is one of [. ! ?]. *)
Definition endsWithTerminator (s : jsstring) : bool :=
  match rev s with
  | c :: _ => isTerminator c
  | [] => false
  end.

(** The string does not end with white space. *)
Definition noTrailingWs (s : jsstring) : Prop := KeyDeriver.noLeadingWs (rev s).

End Shapes.

(* ================================================================= *)
(** ** The service worker over its lifetime, one event at a time *)

Module Lifetime.
Import Text Prob Background Scan.

(** What reaches the service worker during its lifetime: a message from a
    content script or the popup, or an [onInstalled]/[onStartup] event, whose
    listener calls [initializeModel()] and drops the promise. *)
Inductive Event :=
| Message (env : Env) (fromTab : bool) (request : Request)
| Startup (env : Env).

(** The reaction to one event, run to completion: the response sent, if any,
    and the state left.  The load a startup event starts is taken to settle
    before the next event arrives; the runs in which it is still pending
    then are those of [Concurrent]. *)
Definition react (w : World) (e : Event) : option Response * World :=
  match e with
  | Message env fromTab request =>
      let (response, w') := onMessage env fromTab request w in (Some response, w')
  | Startup env => (None, snd (initializeModel env w))
  end.

(** The events of a lifetime, one after the other: the responses in order and
    the last state. *)
Fixpoint runEvents (events : list Event) (w : World) : list Response * World :=
  match events with
  | [] => ([], w)
  | e :: rest =>
      let (response, w1) := react w e in
      let (responses, w2) := runEvents rest w1 in
      (match response with Some r => r :: responses | None => responses end, w2)
  end.

(** The statistics object a reader of [analysisStats] sees. *)
Definition storedStats (w : World) : Stats :=
  match st_analysisStats (storage w) with Some a => a | None => noStats end.

(** The number of result records a response hands to its caller. *)
Definition resultCount (r : Response) : nat :=
  match r with
  | AnalysisDone result => List.length result
  | _ => 0
  end.

(** The three level counters add up to the total. *)
Definition balanced (a : Stats) : Prop :=
  total a = highCount a + mediumCount a + lowCount a.

(** The globals fit together: a fulfilled promise comes with the model, and
    without it [modelLoaded] is false. *)
Definition GlobalsFit (w : World) : Prop :=
  match modelLoadingPromise w with
  | None => modelLoaded w = false
  | Some (Return _) => modelLoaded w = true /\ classifier w <> None
  | Some (Throw e) => modelLoaded w = false /\ e <> ModelNotAvailable
  end.

(** What an operation leaves alone or keeps in order. *)
Definition keepsGlobals (w w' : World) : Prop :=
  classifier w' = classifier w /\ modelLoaded w' = modelLoaded w /\
  modelLoadingPromise w' = modelLoadingPromise w.

End Lifetime.

(* ================================================================= *)
(** ** Feedback over a lifetime *)

Module FeedbackLife.
Import Text Prob Background Scan Lifetime.

(** The feedback items a reader of [feedbackData] sees. *)
Definition storedFeedback (w : World) : list FeedbackItem :=
  match st_feedbackData (storage w) with Some l => l | None => [] end.

(** Whether a response accepts a feedback submission. *)
Definition accepted (r : Response) : nat :=
  match r with
  | FeedbackDone => 1
  | _ => 0
  end.

(** Whether the backend answers [ok] during an event. *)
Definition backendOk (e : Event) : bool :=
  match e with
  | Message env _ _ =>
      match fetchResult env with
      | FetchResponse true => true
      | _ => false
      end
  | Startup _ => true
  end.

(** Whether the storage area works while a feedback submission is handled;
    the other events do not touch [feedbackData]. *)
Definition storageWorks (e : Event) : bool :=
  match e with
  | Message env _ (SubmitFeedback _) => storageOk env
  | _ => true
  end.

(** What is kept of the feedback: the stored items and the batches posted. *)
Definition keepsFeedback (w w' : World) : Prop :=
  st_feedbackData (storage w') = st_feedbackData (storage w) /\
  delivered w' = delivered w.


(** The bound, the batch size and the account of the submissions, as one
    property of a state and the number of submissions accepted so far. *)
Definition FeedbackOk (exact : bool) (n : nat) (w : World) : Prop :=
  List.length (storedFeedback w) < 10 /\
  Forall (fun batch => List.length batch = 10) (delivered w) /\
  List.length (storedFeedback w) + 10 * List.length (delivered w) <= n /\
  (exact = true ->
   List.length (storedFeedback w) + 10 * List.length (delivered w) = n).

End FeedbackLife.

(* ================================================================= *)
(** ** Code units and letter case *)

Module Letters.
Import Text.

(** Every code unit of the model, in order. *)
Definition allCodeUnits : list ascii := map ascii_of_nat (seq 0 256).

(** An ASCII code unit. *)
Definition isAscii (c : ascii) : bool := code c <? 128.

(** [A] to [Z] replaced by [a] to [z], every other code unit kept. *)
Definition asciiLower (c : ascii) : ascii :=
  if (65 <=? code c) && (code c <=? 90) then ascii_of_nat (code c + 32) else c.

(** The number of SPACE code units of a string. *)
Definition spaces (s : jsstring) : nat := count_occ ascii_dec s " "%char.

End Letters.

(* ================================================================= *)
(** ** Requests for any texts under any outside *)

Module Overlap.
Import Text Prob Background Scan Concurrent.

(** Requests for the texts [texts], in this order, reach a worker that has
    just started. *)
Definition arrive (texts : list jsstring) : Config :=
  {| globals := freshGlobals;
     requests := map (fun t => {| text := t; pc := Arrived |}) texts |}.

(** What holds of the globals whatever the outside does: the loader has been
    started once when there is a promise and never when there is none, and
    [modelLoaded] is true only with a classifier at hand. *)
Definition LoadOk (g : Globals) : Prop :=
  match modelLoadingPromise g with
  | NoPromise => loads g = 0
  | AwaitingCatchStore e | Settled (Throw e) => loads g = 1 /\ e <> ModelNotAvailable
  | Settled (Return _) => loads g = 1 /\ classifier g <> None
  | _ => loads g = 1
  end /\
  (modelLoaded g = true -> classifier g <> None).

(** The request has not thrown 'Model not available'. *)
Definition hasModelOrWaits (r : Request) : Prop :=
  pc r <> Done (Throw ModelNotAvailable).

(** The answer [{ loaded: modelLoaded, loading: !!modelLoadingPromise &&
    !modelLoaded }] of the listener to [getModelStatus] from a tab, read from
    the globals between two steps. *)
Definition statusOf (g : Globals) : bool * bool :=
  (modelLoaded g,
   match modelLoadingPromise g with NoPromise => false | _ => true end
   && negb (modelLoaded g)).

(** [modelLoaded] and the load count, by the state of the promise. *)
Definition FlagOk (g : Globals) : Prop :=
  match modelLoadingPromise g with
  | NoPromise => loads g = 0 /\ modelLoaded g = false
  | AwaitingImport | AwaitingPipeline | AwaitingCatchStore _ | Settled (Throw _) =>
      loads g = 1 /\ modelLoaded g = false
  | AwaitingStore | AwaitingWarmup | Settled (Return _) =>
      loads g = 1 /\ modelLoaded g = true
  end.

(** What holds of the globals when the import or the pipeline fails. *)
Definition LoadFails (env : Env) (g : Globals) : Prop :=
  classifier g = None /\ modelLoaded g = false /\ engineCalls g = [] /\
  match modelLoadingPromise g with
  | NoPromise | AwaitingImport | AwaitingCatchStore _ | Settled (Throw _) => True
  | AwaitingPipeline => importOk env = true
  | _ => False
  end.

(** A request that waits, or has failed with the reason of the rejection. *)
Definition failedWithLoad (g : Globals) (r : Request) : Prop :=
  match pc r with
  | Arrived | AwaitModel => True
  | Done (Throw e) => modelLoadingPromise g = Settled (Throw e)
  | _ => False
  end.

End Overlap.

(* ================================================================= *)
(** ** Reading and writing the statistics while requests overlap *)

Module Race.
Import Text Prob Background Scan Concurrent.

(** The request has not yet read the statistics. *)
Definition beforeRead (p : RequestPc) : bool :=
  match p with
  | Arrived | AwaitModel | AwaitBatch _ _ _ | AwaitStatsGet _ => true
  | _ => false
  end.

(** [analysisStats.total] as a reader of the storage area sees it. *)
Definition storedTotal (g : Globals) : nat :=
  total (match st_analysisStats (storage g) with Some a => a | None => noStats end).

End Race.

(* ================================================================= *)
(** ** backend/server.js, setup script: the background script it writes *)

Module SetupScript.
Import Text Prob Background.
Local Open Scope async_scope.

(** [chrome.storage.local.set({ modelLoaded: true })] *)
Definition storeModelLoaded (st : Storage) : Storage :=
  {| st_modelLoaded := Some true; st_modelLoadTime := st_modelLoadTime st;
     st_analysisStats := st_analysisStats st; st_feedbackData := st_feedbackData st |}.

Definition testText : jsstring := str "Test".

(** The body of the [async] arrow function behind [modelLoadingPromise]: its
    [catch] logs, sets [modelLoaded = false] and returns, so the promise is
    fulfilled also when the load fails. *)
Definition loaderBody (env : Env) : M unit :=
  tryCatch
    ((if importOk env then ret tt else throw ImportFailed) ;;
     c <- match pipeline env with
          | Some c => ret c
          | None => throw PipelineFailed
          end ;;
     modify (setClassifier c) ;;
     modify (setModelLoaded true) ;;
     storageSet env storeModelLoaded ;;
     _ <- callClassifier c testText ;;
     ret tt)
    (fun _ => modify (setModelLoaded false)).

(** [initializeModel()], awaited. *)
Definition initializeModel (env : Env) : M unit :=
  fun w => match modelLoadingPromise w with
           | Some settled => (settled, w)
           | None =>
               let (r, w') := loaderBody env (countLoad w) in
               (r, setPromise (Some r) w')
           end.

(** The object literal [{ text, probability, level }]. *)
Record Result := { text : jsstring; probability : float; level : Level }.

Definition ai : list jsstring :=
  [ str "artificial intelligence"; str "machine learning"; str "furthermore" ].

(** [calculateProbability(text, score)] *)
Definition calculateProbability (text : jsstring) (score : float) : float :=
  let prob :=
    fold_left (fun prob kw =>
                 if includes kw (toLowerCase text) then (prob + 0.1)%float else prob)
              ai 0.3%float in
  Math_min (prob + score * 0.2)%float 1%float.

(** One turn of [for (const sentence of sentences)]: a short sentence is
    skipped; a call of the [null] classifier throws a TypeError and a call
    that rejects throws too, and both end in the [catch], which only
    logs. *)
Definition analyzeSentence (sentence : jsstring) : M (option Result) :=
  if List.length (trim sentence) <? 15 then ret None
  else
    fun w =>
      match classifier w with
      | None => ret None w
      | Some c =>
          tryCatch
            (output <- callClassifier c (trim sentence) ;;
             let probability := calculateProbability sentence (score output) in
             ret (Some {| text := trim sentence;
                          probability := probability;
                          level := levelOf probability |}))
            (fun _ => ret None) w
      end.

Fixpoint analyzeEach (sentences : list jsstring) (results : list Result)
  : M (list Result) :=
  match sentences with
  | [] => ret results
  | sentence :: rest =>
      r <- analyzeSentence sentence ;;
      analyzeEach rest (match r with Some x => results ++ [x] | None => results end)
  end.

(** [analysisStats.total++; analysisStats[r.level]++] *)
Definition countLevel (a : Stats) (r : Result) : Stats :=
  match level r with
  | high => {| total := S (total a); highCount := S (highCount a);
               mediumCount := mediumCount a; lowCount := lowCount a |}
  | medium => {| total := S (total a); highCount := highCount a;
                 mediumCount := S (mediumCount a); lowCount := lowCount a |}
  | low => {| total := S (total a); highCount := highCount a;
              mediumCount := mediumCount a; lowCount := S (lowCount a) |}
  end.

(** [updateStats(results)] *)
Definition updateStats (env : Env) (results : list Result) : M unit :=
  st <- storageGet env ;;
  let analysisStats :=
    match st_analysisStats st with Some a => a | None => noStats end in
  storageSet env (storeStats (fold_left countLevel results analysisStats)).

(** [handleAnalyze(text)] *)
Definition handleAnalyze (env : Env) (text : jsstring) : M (list Result) :=
  (fun w => if modelLoaded w then ret tt w else initializeModel env w) ;;
  results <- analyzeEach (matchSentences text) [] ;;
  updateStats env results ;;
  ret results.

(** [handleFeedback(feedback)]: the body posted is the stored array as it is;
    a fetch that throws ends in the [catch], which only warns, and the array
    is emptied after a fetch that returned. *)
Definition handleFeedback (env : Env) (feedback : Feedback) : M unit :=
  st <- storageGet env ;;
  let feedbackData :=
    match st_feedbackData st with Some l => l | None => [] end in
  let feedbackData := feedbackData ++ [{| item := feedback; timestamp := now env |}] in
  storageSet env (storeFeedback feedbackData) ;;
  if 10 <=? List.length feedbackData then
    match fetchResult env with
    | FetchRejects => ret tt
    | FetchResponse ok =>
        (if ok then modify (deliver feedbackData) else ret tt) ;;
        tryCatch (storageSet env (storeFeedback [])) (fun _ => ret tt)
    end
  else ret tt.




End SetupScript.

(* ================================================================= *)
(** ** More concrete inputs *)

Module Samples.
Import Text Prob Background Scan Concurrent Lifetime Demo.

(** A text without a sentence terminator. *)
Definition plainText : jsstring := str "no end of sentence in this text".

(** Everything outside works, except the storage area. *)
Definition fullDiskEnv : Env :=
  {| importOk := true; pipeline := Some steadyClassifier; storageOk := false;
     fetchResult := FetchRejects; now := 1700000000000%Z;
     hostname := fun _ => None |}.

(** Everything outside works, the backend too. *)
Definition reachableEnv : Env :=
  {| importOk := true; pipeline := Some steadyClassifier; storageOk := true;
     fetchResult := FetchResponse true; now := 1700000000000%Z;
     hostname := fun _ => None |}.

(** Eleven feedback submissions from a tab while the backend answers. *)
Definition elevenSubmissions : list Event :=
  repeat (Message reachableEnv true (SubmitFeedback thumbsUp)) 11.


(** Eleven feedback submissions after a startup and a scan whose statistics
    cannot be stored. *)
Definition busyDay : list Event :=
  Startup calmEnv :: Message fullDiskEnv true (AnalyzeText twoSentences)
  :: repeat (Message calmEnv true (SubmitFeedback thumbsUp)) 11.



(** Two requests and the loader, interleaved. *)
Definition mixedTurns : list Task :=
  [Req 0; Loader; Req 1; Loader; Loader; Req 0; Req 1; Req 1].

End Samples.

(* ================================================================= *)
(** ** Facts about binary64 arithmetic used by the clamp *)

Module FloatFacts.
Import Prob.
Local Open Scope float_scope.

Lemma SFcompare_refl x : notNaN x -> SFcompare x x = Some Eq.
Proof.
  destruct x as [s|s| |s m e]; intro H; try reflexivity.
  - destruct s; reflexivity.
  - now elim H.
  - simpl. rewrite Z.compare_refl.
    assert (Hm : Pos.compare_cont Eq m m = Eq) by apply Pos.compare_refl.
    rewrite Hm. destruct s; reflexivity.
Qed.

Lemma SFcompare_nan_l y : SFcompare S754_nan y = None.
Proof. reflexivity. Qed.

Lemma SFcompare_total x y :
  notNaN x -> notNaN y -> exists c, SFcompare x y = Some c.
Proof.
  intros Hx Hy.
  destruct x as [sx|sx| |sx mx ex]; try now elim Hx.
  all: destruct y as [sy|sy| |sy my ey]; try now elim Hy.
  all: simpl; eauto.
Qed.

Lemma SFcompare_antisym x y c :
  SFcompare x y = Some c -> SFcompare y x = Some (CompOpp c).
Proof.
  destruct x as [sx|sx| |sx mx ex]; destruct y as [sy|sy| |sy my ey];
    simpl; try discriminate; intro H; injection H as <-;
    try (destruct sx; reflexivity); try (destruct sy; reflexivity);
    try (destruct sx, sy; reflexivity).
  f_equal.
  rewrite (Z.compare_antisym ex ey).
  pose proof (Pos.compare_cont_antisym mx my Eq) as Hm. simpl in Hm.
  rewrite <- Hm.
  destruct sx, sy; simpl; try reflexivity;
    destruct (ex ?= ey)%Z; simpl; reflexivity.
Qed.

Lemma is_nan_spec x : is_nan x = false <-> notNaN (Prim2SF x).
Proof.
  unfold is_nan. rewrite eqb_spec. unfold SFeqb, notNaN. split.
  - intros H E. rewrite E in H. discriminate.
  - intro H. now rewrite (SFcompare_refl _ H).
Qed.

(** For numbers, [x < y] failing means [y <= x]. *)
Lemma ltb_false_leb x y :
  is_nan x = false -> is_nan y = false -> (x <? y) = false -> (y <=? x) = true.
Proof.
  rewrite !is_nan_spec, ltb_spec, leb_spec. unfold SFltb, SFleb.
  intros Hx Hy.
  destruct (SFcompare_total _ _ Hx Hy) as [c Hc].
  rewrite Hc, (SFcompare_antisym _ _ _ Hc).
  destruct c; simpl; congruence.
Qed.

(** For numbers, [y < x] and [x <= y] exclude each other. *)
Lemma ltb_leb_negb x y : (x <=? y) = true -> (y <? x) = false.
Proof.
  rewrite ltb_spec, leb_spec. unfold SFltb, SFleb.
  destruct (SFcompare (Prim2SF x) (Prim2SF y)) as [c|] eqn:Hc; try discriminate.
  rewrite (SFcompare_antisym _ _ _ Hc). destruct c; simpl; congruence.
Qed.

Section Rounding.
Variables prec emax : Z.

Lemma shr_1_nonneg mrs : (0 <= shr_m mrs)%Z -> (0 <= shr_m (shr_1 mrs))%Z.
Proof.
  destruct mrs as [m r s]; simpl.
  destruct m as [|p|p]; [simpl; lia | | lia].
  intros _. destruct p; simpl; lia.
Qed.

Lemma iter_pos_nonneg p : forall mrs,
  (0 <= shr_m mrs)%Z -> (0 <= shr_m (iter_pos shr_1 p mrs))%Z.
Proof.
  induction p as [p IH|p IH|]; simpl; intros mrs H.
  - apply IH, IH, shr_1_nonneg, H.
  - apply IH, IH, H.
  - apply shr_1_nonneg, H.
Qed.

Lemma shr_fexp_nonneg m e l :
  (0 <= m)%Z -> (0 <= shr_m (fst (shr_fexp prec emax m e l)))%Z.
Proof.
  intro H. unfold shr_fexp, shr.
  assert (H0 : (0 <= shr_m (shr_record_of_loc m l))%Z)
    by (destruct l as [|[]]; exact H).
  destruct (fexp prec emax (Zdigits2 m + e) - e)%Z; simpl; auto.
  now apply iter_pos_nonneg.
Qed.

Lemma round_nearest_even_nonneg m l :
  (0 <= m)%Z -> (0 <= round_nearest_even m l)%Z.
Proof.
  intro H. destruct l as [|[]]; simpl; try lia.
  destruct (Z.even m); lia.
Qed.

(** Rounding a non-negative mantissa never yields NaN. *)
Lemma binary_round_aux_notNaN sx mx ex lx :
  (0 <= mx)%Z -> notNaN (binary_round_aux prec emax sx mx ex lx).
Proof.
  intro H. unfold binary_round_aux.
  pose proof (shr_fexp_nonneg mx ex lx H) as H1.
  destruct (shr_fexp prec emax mx ex lx) as [mrs' e']. simpl in H1.
  pose proof (shr_fexp_nonneg _ e' loc_Exact
                (round_nearest_even_nonneg _ (loc_of_shr_record mrs') H1)) as H2.
  destruct (shr_fexp prec emax _ e' loc_Exact) as [mrs'' e'']. simpl in H2.
  destruct (shr_m mrs'') as [|q|q]; try lia; unfold notNaN.
  - discriminate.
  - destruct (e'' <=? emax - prec)%Z; discriminate.
Qed.

Lemma binary_round_notNaN sx mx ex : notNaN (binary_round prec emax sx mx ex).
Proof.
  unfold binary_round. destruct (shl_align _ _ _) as [mz ez].
  apply binary_round_aux_notNaN. lia.
Qed.

Lemma binary_normalize_notNaN m e sz : notNaN (binary_normalize prec emax m e sz).
Proof.
  destruct m; simpl; try apply binary_round_notNaN. discriminate.
Qed.

(** A finite number plus a number is a number. *)
Lemma SFadd_notNaN x y :
  finiteSF x = true -> notNaN y -> notNaN (SFadd prec emax x y).
Proof.
  intros Hx Hy.
  destruct x as [sx|sx| |sx mx ex]; try discriminate;
    destruct y as [sy|sy| |sy my ey]; try (now elim Hy); simpl;
    try discriminate; try apply binary_normalize_notNaN.
  destruct sx, sy; discriminate.
Qed.

(** A number times a finite non-zero number is a number. *)
Lemma SFmul_notNaN x sy my ey :
  notNaN x -> notNaN (SFmul prec emax x (S754_finite sy my ey)).
Proof.
  intros Hx.
  destruct x as [sx|sx| |sx mx ex]; try (now elim Hx); simpl; try discriminate.
  apply binary_round_aux_notNaN. lia.
Qed.
End Rounding.

Lemma add_notNaN x y :
  isFinite x = true -> is_nan y = false -> is_nan (x + y) = false.
Proof.
  unfold isFinite. rewrite !is_nan_spec, add_spec. apply SFadd_notNaN.
Qed.

Lemma mul_notNaN x y sy my ey :
  Prim2SF y = S754_finite sy my ey -> is_nan x = false -> is_nan (x * y) = false.
Proof.
  intro Hy. rewrite !is_nan_spec, mul_spec, Hy. apply SFmul_notNaN.
Qed.

End FloatFacts.

(* ================================================================= *)
(** ** What one scan does *)

Module ScanFacts.
Import Text Prob Background Scan.
Local Open Scope async_scope.

Lemma addCalls_nil w : addCalls [] w = w.
Proof. destruct w; unfold addCalls; simpl. now rewrite app_nil_r. Qed.

Lemma addCalls_app l1 l2 w : addCalls l2 (addCalls l1 w) = addCalls (l1 ++ l2) w.
Proof. unfold addCalls; simpl. now rewrite app_assoc. Qed.

Lemma logCall_addCalls s w : logCall s w = addCalls [s] w.
Proof. reflexivity. Qed.

Lemma analyzeSentence_run c sentence w :
  analyzeSentence c sentence w =
  (Return (scored c sentence),
   addCalls (if qualifies sentence then [trim sentence] else []) w).
Proof.
  unfold analyzeSentence, scored, qualifies.
  destruct (List.length (trim sentence) <? 15); simpl.
  - unfold ret. now rewrite addCalls_nil.
  - unfold tryCatch, bind, callClassifier.
    destruct (c (trim sentence)); reflexivity.
Qed.

Lemma callsOf_cons s l :
  callsOf (s :: l) = (if qualifies s then [trim s] else []) ++ callsOf l.
Proof. unfold callsOf; simpl. destruct (qualifies s); reflexivity. Qed.

Lemma callsOf_app l1 l2 : callsOf (l1 ++ l2) = callsOf l1 ++ callsOf l2.
Proof. unfold callsOf. now rewrite filter_app, map_app. Qed.

Lemma nonNull_app {A} (l1 l2 : list (option A)) :
  nonNull (l1 ++ l2) = nonNull l1 ++ nonNull l2.
Proof.
  induction l1 as [|[a|] l1 IH]; simpl; auto. now rewrite IH.
Qed.

Lemma analyzeAll_app c l1 l2 :
  analyzeAll c (l1 ++ l2) = analyzeAll c l1 ++ analyzeAll c l2.
Proof. unfold analyzeAll. now rewrite map_app, nonNull_app. Qed.

(** One batch: every callback resolves, the calls are made in order. *)
Lemma mapM_analyze_run c batch : forall w,
  mapM (analyzeSentence c) batch w =
  (Return (map (scored c) batch), addCalls (callsOf batch) w).
Proof.
  induction batch as [|s batch IH]; intro w; simpl.
  - unfold ret. now rewrite addCalls_nil.
  - unfold bind. rewrite analyzeSentence_run, IH.
    unfold ret. now rewrite addCalls_app, callsOf_cons.
Qed.

(** The loop, started at index [i] with enough turns left, handles exactly the
    sentences from [i] on. *)
Lemma batchLoop_run c sentences : forall fuel i results w,
  List.length sentences <= i + fuel ->
  batchLoop fuel c sentences i results w =
  (Return (results ++ analyzeAll c (skipn i sentences)),
   addCalls (callsOf (skipn i sentences)) w).
Proof.
  induction fuel as [|fuel IH]; intros i results w Hfuel; simpl.
  - rewrite skipn_all2 by lia. unfold ret, analyzeAll, callsOf; simpl.
    now rewrite app_nil_r, addCalls_nil.
  - destruct (Nat.ltb_spec i (List.length sentences)) as [Hi|Hi].
    + unfold bind. rewrite mapM_analyze_run.
      rewrite IH by (unfold batchSize; lia).
      rewrite addCalls_app, <- callsOf_app, <- app_assoc.
      change (nonNull (map (scored c) ?b)) with (analyzeAll c b).
      rewrite <- analyzeAll_app.
      unfold slice.
      replace (i + batchSize - i) with batchSize by lia.
      replace (skipn (i + batchSize) sentences)
        with (skipn batchSize (skipn i sentences))
        by (rewrite skipn_skipn; f_equal; lia).
      now rewrite firstn_skipn.
    + rewrite skipn_all2 by lia. unfold ret, analyzeAll, callsOf; simpl.
      now rewrite app_nil_r, addCalls_nil.
Qed.

Lemma batchLoop_all c sentences w :
  batchLoop (List.length sentences) c sentences 0 [] w =
  (Return (analyzeAll c sentences), addCalls (callsOf sentences) w).
Proof. now rewrite batchLoop_run by lia. Qed.

(** A scan with the model at hand and a working storage area. *)
Lemma handleAnalyzeText_loaded env text w c :
  modelLoaded w = true -> classifier w = Some c -> storageOk env = true ->
  handleAnalyzeText env text w =
  (Return (analyzeAll c (matchSentences text)), afterScan c text w).
Proof.
  intros Hl Hc Hs. unfold handleAnalyzeText, afterScan, bind at 1.
  rewrite Hl. unfold ret at 1. rewrite Hc.
  destruct (List.length (matchSentences text) =? 0) eqn:E.
  - apply Nat.eqb_eq, length_zero_iff_nil in E. rewrite E. reflexivity.
  - unfold bind. rewrite batchLoop_all.
    unfold updateAnalysisStats, bind, storageGet, storageSet. rewrite Hs.
    reflexivity.
Qed.



Lemma handleAnalyzeText_unfold env text :
  handleAnalyzeText env text =
  ((fun w => if modelLoaded w then ret tt w else initializeModel env w) ;;
   scanBody env text).
Proof. reflexivity. Qed.

Lemma scanBody_returns env text w rs w' :
  scanBody env text w = (Return rs, w') ->
  exists c, classifier w = Some c /\
            rs = analyzeAll c (matchSentences text) /\
            engineCalls w' = engineCalls w ++ callsOf (matchSentences text).
Proof.
  unfold scanBody. destruct (classifier w) as [c|]; [|discriminate].
  destruct (List.length (matchSentences text) =? 0) eqn:E.
  - apply Nat.eqb_eq, length_zero_iff_nil in E. rewrite E.
    intro H. injection H as <- <-. exists c. simpl. now rewrite app_nil_r.
  - unfold bind. rewrite batchLoop_all.
    unfold updateAnalysisStats, bind, storageGet, storageSet.
    destruct (storageOk env); [|discriminate].
    intro H. injection H as <- <-. exists c. auto.
Qed.

(** Whatever the state, a scan that returns has run one pass over the
    sentences of the text with the classifier then in the global. *)
Lemma handleAnalyzeText_returns env text w rs w' :
  handleAnalyzeText env text w = (Return rs, w') ->
  exists c, rs = analyzeAll c (matchSentences text).
Proof.
  rewrite handleAnalyzeText_unfold. unfold bind at 1.
  destruct (modelLoaded w).
  - unfold ret at 1. intro H. apply scanBody_returns in H.
    destruct H as [c [_ [H _]]]. eauto.
  - destruct (initializeModel env w) as [[[]|e] w1]; [|discriminate].
    intro H. apply scanBody_returns in H.
    destruct H as [c [_ [H _]]]. eauto.
Qed.

Lemma In_nonNull {A} (a : A) l : In a (nonNull l) <-> In (Some a) l.
Proof.
  induction l as [|[b|] l IH]; simpl; [tauto| |].
  - rewrite IH. split; intros [H|H]; auto; left; congruence.
  - rewrite IH. split; [auto|]. intros [H|H]; [discriminate|auto].
Qed.

(** Every record of a result list comes from one sentence and one answer of
    the classifier. *)
Lemma In_analyzeAll c sentences r :
  In r (analyzeAll c sentences) ->
  exists sentence output,
    In sentence sentences /\ qualifies sentence = true /\
    c (trim sentence) = Some output /\
    text r = trim sentence /\
    modelScore r = score output /\
    modelLabel r = label output /\
    probability r = calculateAIProbability (text r) (modelScore r) /\
    level r = levelOf (probability r).
Proof.
  unfold analyzeAll. rewrite In_nonNull, in_map_iff.
  intros [sentence [Hs Hin]]. unfold scored in Hs.
  destruct (qualifies sentence) eqn:Hq; [|discriminate].
  destruct (c (trim sentence)) as [output|] eqn:Hc; [|discriminate].
  injection Hs as <-. exists sentence, output. simpl. auto 10.
Qed.

End ScanFacts.

(* ================================================================= *)
(** ** Where the results lie in the scanned text *)

Module SpanFacts.
Import Text Prob Background Scan ScanFacts.

Lemma disjointAscending_weaken lo lo' hi spans :
  lo' <= lo -> disjointAscending lo hi spans -> disjointAscending lo' hi spans.
Proof.
  destruct spans as [|[a b] rest]; simpl; intros H; [lia|].
  intros [H1 H2]. split; [lia|assumption].
Qed.

(** The matcher in its [Body] and [Tail] phases cuts the pending characters
    and the rest of the text into the matches, back to back, and a leftover. *)
Lemma scan_pending s : forall ph acc,
  ph <> Seek ->
  exists rest, rev acc ++ s = List.concat (scan ph acc s) ++ rest.
Proof.
  induction s as [|c s IH]; intros ph acc Hph.
  - destruct ph; [now elim Hph| |]; simpl.
    + exists (rev acc). now rewrite app_nil_r.
    + exists []. now rewrite !app_nil_r.
  - assert (Hshift : forall a, rev a ++ c :: s = rev (c :: a) ++ s)
      by (intro a; simpl; now rewrite <- app_assoc).
    destruct ph; [now elim Hph| |]; simpl scan; destruct (isTerminator c).
    + rewrite Hshift. apply IH. discriminate.
    + rewrite Hshift. apply IH. discriminate.
    + rewrite Hshift. apply IH. discriminate.
    + destruct (IH Body [c]) as [rest Hrest]; [discriminate|].
      exists rest. simpl List.concat. simpl in Hrest.
      now rewrite <- app_assoc, <- Hrest.
Qed.

(** The matches of a text are consecutive pieces of it: only terminators can
    come before the first, nothing lies between two, and what follows the
    last has no terminator. *)
Lemma matchSentences_pieces text :
  exists lead rest, text = lead ++ List.concat (matchSentences text) ++ rest.
Proof.
  unfold matchSentences. induction text as [|c s IH]; simpl.
  - exists [], []. reflexivity.
  - destruct (isTerminator c).
    + destruct IH as [lead [rest H]]. exists (c :: lead), rest.
      simpl. now rewrite <- H.
    + destruct (scan_pending s Body [c]) as [rest H]; [discriminate|].
      exists [], rest. exact H.
Qed.

Lemma dropWhile_suffix p s : exists l, s = l ++ dropWhile p s.
Proof.
  induction s as [|c s [l IH]]; simpl.
  - exists []. reflexivity.
  - destruct (p c).
    + exists (c :: l). simpl. now rewrite <- IH.
    + exists []. reflexivity.
Qed.

(** [trim] keeps a middle part of the string. *)
Lemma trim_middle s : exists l r, s = l ++ trim s ++ r.
Proof.
  unfold trim, trimEnd, trimStart.
  destruct (dropWhile_suffix isWhiteSpace s) as [l Hl].
  destruct (dropWhile_suffix isWhiteSpace (rev (dropWhile isWhiteSpace s))) as [r Hr].
  exists l, (rev r).
  rewrite <- rev_app_distr, <- Hr, rev_involutive. exact Hl.
Qed.

Lemma slice_middle {A} (pre x post : list A) :
  slice (List.length pre) (List.length pre + List.length x) (pre ++ x ++ post) = x.
Proof.
  unfold slice.
  replace (List.length pre + List.length x - List.length pre) with (List.length x) by lia.
  rewrite skipn_app, skipn_all, Nat.sub_diag. simpl.
  rewrite firstn_app, firstn_all, Nat.sub_diag. simpl. now rewrite app_nil_r.
Qed.

(** The records of one pass lie in the text at disjoint, ascending places. *)
Lemma analyzeAll_spans c : forall sentences pre post,
  exists spans,
    Forall2 (fun r ab => text r = slice (fst ab) (snd ab) (pre ++ List.concat sentences ++ post))
            (analyzeAll c sentences) spans /\
    disjointAscending (List.length pre)
                      (List.length pre + List.length (List.concat sentences)) spans.
Proof.
  induction sentences as [|s ss IH]; intros pre post.
  - exists []. split; [constructor | simpl; lia].
  - destruct (IH (pre ++ s) post) as [spans [Hall Hasc]].
    assert (Etext : (pre ++ s) ++ List.concat ss ++ post = pre ++ List.concat (s :: ss) ++ post)
      by (simpl; now rewrite <- !app_assoc).
    rewrite Etext in Hall.
    assert (Hasc' : disjointAscending (List.length pre + List.length s)
                      (List.length pre + List.length (List.concat (s :: ss))) spans).
    { simpl List.concat. rewrite !length_app in *.
      now rewrite Nat.add_assoc. }
    unfold analyzeAll. simpl map.
    destruct (scored c s) as [r|] eqn:Hr; simpl nonNull.
    + unfold scored in Hr.
      destruct (qualifies s) eqn:Hq; [|discriminate].
      destruct (c (trim s)) as [output|]; [|discriminate].
      injection Hr as <-. simpl text.
      unfold qualifies in Hq. apply negb_true_iff, Nat.ltb_ge in Hq.
      destruct (trim_middle s) as [l [r Hs]].
      remember (trim s) as t eqn:Et.
      exists ((List.length (pre ++ l), List.length (pre ++ l) + List.length t) :: spans).
      split.
      * constructor; [|exact Hall]. simpl fst; simpl snd.
        rewrite <- Etext. rewrite Hs.
        replace ((pre ++ l ++ t ++ r) ++ List.concat ss ++ post)
          with ((pre ++ l) ++ t ++ (r ++ List.concat ss ++ post))
          by (now rewrite <- !app_assoc).
        now rewrite slice_middle.
      * simpl. rewrite length_app. repeat split; try lia.
        apply (disjointAscending_weaken (List.length pre + List.length s)); [|exact Hasc'].
        rewrite Hs. rewrite !length_app. lia.
    + exists spans. split; [exact Hall|].
      apply (disjointAscending_weaken (List.length pre + List.length s)); [lia|exact Hasc'].
Qed.

Lemma disjointAscending_widen lo hi hi' spans :
  hi <= hi' -> disjointAscending lo hi spans -> disjointAscending lo hi' spans.
Proof.
  revert lo. induction spans as [|[a b] rest IH]; simpl; intros lo H; [lia|].
  intros [H1 [H2 H3]]. repeat split; auto.
Qed.

(** The records of one pass over the matches of [text] lie in [text] itself at
    disjoint, ascending places. *)
Lemma analyzeAll_in_text c text :
  exists spans,
    Forall2 (fun r ab => Background.text r = slice (fst ab) (snd ab) text)
            (analyzeAll c (matchSentences text)) spans /\
    disjointAscending 0 (List.length text) spans.
Proof.
  destruct (matchSentences_pieces text) as [lead [rest Htext]].
  destruct (analyzeAll_spans c (matchSentences text) lead rest) as [spans [Hall Hasc]].
  rewrite <- Htext in Hall. exists spans. split; [exact Hall|].
  apply (disjointAscending_weaken (List.length lead)); [lia|].
  apply (disjointAscending_widen _ (List.length lead + List.length (List.concat (matchSentences text))));
    [|exact Hasc].
  rewrite Htext at 2. rewrite !length_app. lia.
Qed.

End SpanFacts.

(* ================================================================= *)
(** ** The probability heuristic: range and levels *)

Module ProbFacts.
Import Text Prob FloatFacts.
Local Open Scope float_scope.

Lemma fold_add_iter {A} (f : A -> bool) (d : float) (l : list A) : forall p0,
  fold_left (fun p a => if f a then p + d else p) l p0 =
  Nat.iter (List.length (filter f l)) (fun p => p + d) p0.
Proof.
  induction l as [|a l IH]; intro p0; simpl; auto.
  rewrite IH. destruct (f a); simpl; auto.
  exact (eq_sym (Nat.iter_succ_r _ _ (fun p => p + d) p0)).
Qed.

(** The heuristic sum is finite: it is one of 13 * 2 * 2 sums of constants. *)
Lemma heuristic_finite text : isFinite (heuristic text) = true.
Proof.
  unfold heuristic. rewrite fold_add_iter.
  pose proof (filter_length_le
                (fun keyword => includes keyword (toLowerCase text)) aiKeywords) as Hk.
  change (List.length aiKeywords) with 12%nat in Hk.
  set (k := List.length (filter _ aiKeywords)) in *. clearbody k.
  destruct (testFormal text), (25 <? List.length (split text))%nat;
    do 13 (destruct k as [|k]; [vm_compute; reflexivity|]); lia.
Qed.

Lemma ltb_true_numbers x y :
  (x <? y) = true -> is_nan x = false /\ is_nan y = false.
Proof.
  rewrite !is_nan_spec, ltb_spec. unfold SFltb, notNaN.
  destruct (Prim2SF x), (Prim2SF y); simpl; try discriminate;
    intros _; split; discriminate.
Qed.

Lemma Math_max_zero x :
  is_nan x = false ->
  Math_max x 0 = 0 \/ (Math_max x 0 = x /\ (x <? 0) = false).
Proof.
  intro Hx. unfold Math_max. rewrite Hx.
  change (is_nan 0) with false. change (isPosZero 0) with true. simpl.
  destruct (isNegZero x); auto.
  destruct (x <? 0) eqn:E; auto.
Qed.

Lemma Math_min_one m :
  is_nan m = false ->
  Math_min m 1 = 1 \/ (Math_min m 1 = m /\ (1 <? m) = false).
Proof.
  intro Hm. unfold Math_min. rewrite Hm.
  change (is_nan 1) with false. change (isNegZero 1) with false. simpl.
  destruct (1 <? m) eqn:E; auto.
Qed.

(** [Math.min(Math.max(x, 0), 1)] of a number lies between 0 and 1. *)
Lemma clamp_range x :
  is_nan x = false ->
  (0 <=? Math_min (Math_max x 0) 1) = true /\
  (Math_min (Math_max x 0) 1 <=? 1) = true.
Proof.
  intro Hx.
  assert (Hm : is_nan (Math_max x 0) = false /\ (0 <=? Math_max x 0) = true).
  { destruct (Math_max_zero x Hx) as [-> | [-> Hlt]].
    - split; reflexivity.
    - split; auto. now apply ltb_false_leb. }
  destruct Hm as [Hn H0].
  destruct (Math_min_one _ Hn) as [-> | [-> Hlt]].
  - split; reflexivity.
  - split; auto. now apply ltb_false_leb.
Qed.

(** The sum handed to the clamp is a number whenever the model score is. *)
Lemma sum_notNaN text s :
  is_nan s = false -> is_nan (heuristic text + s * 0.2) = false.
Proof.
  intro Hs. apply add_notNaN.
  - apply heuristic_finite.
  - eapply mul_notNaN; [reflexivity | exact Hs].
Qed.

Lemma calculateAIProbability_range text s :
  is_nan s = false ->
  (0 <=? calculateAIProbability text s) = true /\
  (calculateAIProbability text s <=? 1) = true.
Proof.
  intro Hs. unfold calculateAIProbability. apply clamp_range.
  now apply sum_notNaN.
Qed.

Lemma leb_true_numbers x y :
  (x <=? y) = true -> is_nan x = false /\ is_nan y = false.
Proof.
  rewrite !is_nan_spec, leb_spec. unfold SFleb, notNaN.
  destruct (Prim2SF x), (Prim2SF y); simpl; try discriminate;
    intros _; split; discriminate.
Qed.

Lemma levelOf_high p : levelOf p = high <-> (0.7 <? p) = true.
Proof.
  unfold levelOf. destruct (0.7 <? p); [tauto|].
  destruct (0.4 <? p); split; discriminate.
Qed.

Lemma levelOf_medium p :
  levelOf p = medium <-> (0.4 <? p) = true /\ (p <=? 0.7) = true.
Proof.
  unfold levelOf. destruct (0.7 <? p) eqn:H7.
  - split; [discriminate|]. intros [_ H]. apply ltb_leb_negb in H. congruence.
  - destruct (0.4 <? p) eqn:H4.
    + split; auto. intros _. split; auto.
      apply ltb_false_leb; auto. now apply ltb_true_numbers in H4.
    + split; [discriminate|]. intros [H _]. discriminate.
Qed.

Lemma levelOf_low p :
  is_nan p = false -> (levelOf p = low <-> (p <=? 0.4) = true).
Proof.
  intro Hp. unfold levelOf. destruct (0.7 <? p) eqn:H7.
  - split; [discriminate|]. intro H.
    apply ltb_leb_negb in H.
    (* 0.4 < p follows from 0.7 < p; shown through the comparison of the
       specification floats *)
    exfalso. revert H7 H. rewrite !ltb_spec. unfold SFltb.
    change (Prim2SF 0.7) with (S754_finite false 6305039478318694 (-53)).
    change (Prim2SF 0.4) with (S754_finite false 7205759403792794 (-54)).
    destruct (Prim2SF p) as [sp|sp| |sp mp ep];
      cbv beta iota delta [SFcompare]; try discriminate.
    + destruct sp; discriminate.
    + destruct sp; try discriminate.
      destruct (Z.compare_spec (-53) ep) as [E|E|E];
        destruct (Z.compare_spec (-54) ep) as [F|F|F];
        try discriminate; lia.
  - destruct (0.4 <? p) eqn:H4.
    + split; [discriminate|]. intro H. apply ltb_leb_negb in H. congruence.
    + split; auto. intros _. apply ltb_false_leb; auto.
Qed.

End ProbFacts.

(* ================================================================= *)
(** ** Invariants of overlapping requests *)

Module ConcurrentFacts.
Import Text Prob Background Scan ScanFacts Concurrent Invariants.

Lemma callsBy_app who l1 l2 : callsBy who (l1 ++ l2) = callsBy who l1 ++ callsBy who l2.
Proof. unfold callsBy. now rewrite filter_app, map_app. Qed.

Lemma eqbCaller_eq a b : eqbCaller a b = true <-> a = b.
Proof.
  destruct a as [|i], b as [|j]; simpl; split; try congruence; try discriminate.
  - intro H. apply Nat.eqb_eq in H. now subst.
  - intro H. injection H as ->. apply Nat.eqb_refl.
Qed.

Lemma callsBy_tagged_same who inputs :
  callsBy who (map (fun s => (who, s)) inputs) = inputs.
Proof.
  unfold callsBy. induction inputs as [|s l IH]; simpl; auto.
  rewrite (proj2 (eqbCaller_eq who who) eq_refl). simpl. now rewrite IH.
Qed.

Lemma callsBy_tagged_other who who' inputs :
  who' <> who -> callsBy who (map (fun s => (who', s)) inputs) = [].
Proof.
  intro H. unfold callsBy. induction inputs as [|s l IH]; simpl; auto.
  destruct (eqbCaller who' who) eqn:E; [|exact IH].
  apply eqbCaller_eq in E. contradiction.
Qed.

Lemma firstn_slice {A} (i n : nat) (l : list A) :
  firstn (i + n) l = firstn i l ++ slice i (i + n) l.
Proof.
  unfold slice. replace (i + n - i) with n by lia.
  rewrite <- (firstn_skipn i l) at 1.
  rewrite firstn_app, length_firstn.
  destruct (Nat.le_ge_cases i (List.length l)) as [H|H].
  - rewrite Nat.min_l by lia. replace (i + n - i) with n by lia.
    rewrite firstn_firstn. now rewrite Nat.min_r by lia.
  - rewrite Nat.min_r by lia. rewrite firstn_firstn.
    rewrite (firstn_all2 (n:=i)) by lia.
    rewrite Nat.min_r by lia.
    rewrite skipn_all2 by lia. rewrite !firstn_nil.
    rewrite firstn_all2 by lia. reflexivity.
Qed.

Lemma startLoader_ok c g :
  GlobalsOk c g ->
  GlobalsOk c (startLoader g) /\ engineCalls (startLoader g) = engineCalls g.
Proof.
  unfold GlobalsOk, startLoader.
  destruct (modelLoadingPromise g) as [| | | | | e | [u|e]] eqn:E; simpl;
    rewrite ?E; intro H; try (split; [exact H | reflexivity]).
  destruct H as [H1 [H2 [H3 H4]]]. rewrite H3. auto.
Qed.

Lemma stepLoader_ok env c g :
  Healthy env c -> GlobalsOk c g ->
  GlobalsOk c (stepLoader env g) /\
  forall k, callsBy (ByRequest k) (engineCalls (stepLoader env g))
            = callsBy (ByRequest k) (engineCalls g).
Proof.
  intros [Hi [Hp [Hs Hw]]] Hg. unfold GlobalsOk in Hg. unfold stepLoader.
  destruct (modelLoadingPromise g) as [| | | | | e | [u|e]] eqn:E;
    try contradiction.
  - split; [|reflexivity]. unfold GlobalsOk. now rewrite E.
  - rewrite Hi. split; [|reflexivity]. exact Hg.
  - rewrite Hp. split; [|reflexivity].
    destruct Hg as [H1 [H2 [H3 H4]]]. unfold GlobalsOk. simpl. auto.
  - rewrite Hs. destruct Hg as [H1 [H2 [H3 H4]]]. split.
    + unfold GlobalsOk. simpl. rewrite callsBy_app, H4. auto.
    + intro k. simpl. rewrite callsBy_app. simpl. now rewrite app_nil_r.
  - destruct Hg as [H1 [H2 [H3 H4]]]. rewrite H1.
    destruct (c warmupText) eqn:Ew; [|now elim Hw].
    split; [|reflexivity]. unfold GlobalsOk. simpl. auto.
  - split; [|reflexivity]. unfold GlobalsOk. now rewrite E.
Qed.

Lemma logCalls_request_ok c k inputs g :
  GlobalsOk c g -> GlobalsOk c (logCalls (ByRequest k) inputs g).
Proof.
  unfold GlobalsOk. simpl. rewrite callsBy_app.
  rewrite (callsBy_tagged_other ByLoader (ByRequest k)) by discriminate.
  now rewrite app_nil_r.
Qed.

Lemma withStorage_ok c st g : GlobalsOk c g -> GlobalsOk c (withStorage st g).
Proof. unfold GlobalsOk. simpl. auto. Qed.

Lemma GlobalsOk_loaded c g :
  GlobalsOk c g -> modelLoaded g = true -> classifier g = Some c.
Proof.
  unfold GlobalsOk.
  destruct (modelLoadingPromise g) as [| | | | | e | [u|e]];
    try contradiction; intros [H1 [H2 _]]; congruence.
Qed.

Lemma GlobalsOk_fulfilled c g u :
  GlobalsOk c g -> modelLoadingPromise g = Settled (Return u) ->
  classifier g = Some c.
Proof. unfold GlobalsOk. intros H E. rewrite E in H. tauto. Qed.

Lemma GlobalsOk_not_rejected c g e :
  GlobalsOk c g -> modelLoadingPromise g <> Settled (Throw e).
Proof. unfold GlobalsOk. intros H E. rewrite E in H. exact H. Qed.

Lemma issueBatch_ok c text k r g i results :
  Concurrent.text r = text ->
  GlobalsOk c g -> classifier g = Some c ->
  results = analyzeAll c (firstn i (matchSentences text)) ->
  callsBy (ByRequest k) (engineCalls g) = callsOf (firstn i (matchSentences text)) ->
  StepOk c text k r g (issueBatch k (matchSentences text) i results g).
Proof.
  intros Ht Hg Hc Hres Hcalls. unfold issueBatch. rewrite Hc.
  unfold StepOk. cbn [fst snd].
  split; [now apply logCalls_request_ok|].
  split; [|split; [auto|eexists; reflexivity]].
  split; [exact Ht|]. cbn [pc logCalls classifier engineCalls].
  split; [exact Hc|]. split; [exact Hres|]. split; [reflexivity|].
  rewrite callsBy_app, callsBy_tagged_same, Hcalls, <- callsOf_app.
  now rewrite <- firstn_slice.
Qed.

Lemma startScan_ok c text k r g :
  Concurrent.text r = text ->
  GlobalsOk c g -> classifier g = Some c ->
  callsBy (ByRequest k) (engineCalls g) = [] ->
  StepOk c text k r g (startScan k text g).
Proof.
  intros Ht Hg Hc Hcalls. unfold startScan. rewrite Hc.
  destruct (List.length (matchSentences text) =? 0) eqn:E.
  - apply Nat.eqb_eq, length_zero_iff_nil in E.
    unfold StepOk, RequestOk. cbn [fst snd pc Concurrent.text]. rewrite E.
    split; [exact Hg|]. split; [auto|]. split; [auto|].
    exists []. simpl. now rewrite app_nil_r.
  - apply issueBatch_ok; auto.
Qed.

Lemma unchanged_ok c text k r g pc' :
  GlobalsOk c g ->
  RequestOk c text {| Concurrent.text := Concurrent.text r; pc := pc' |}
            (classifier g) (callsBy (ByRequest k) (engineCalls g)) ->
  StepOk c text k r g (pc', g).
Proof.
  intros Hg Hr. unfold StepOk. cbn [fst snd].
  split; [exact Hg|]. split; [exact Hr|]. split; [auto|].
  exists []. simpl. now rewrite app_nil_r.
Qed.

Lemma stepRequest_ok env c text k r g :
  Healthy env c -> GlobalsOk c g ->
  RequestOk c text r (classifier g) (callsBy (ByRequest k) (engineCalls g)) ->
  StepOk c text k r g (stepRequest env k r g).
Proof.
  intros [Hi [Hp [Hs Hw]]] Hg [Ht Hr]. unfold stepRequest.
  destruct (pc r) as [| |i results pending|results|results stats|[rs|e]] eqn:Epc.
  - (* Arrived *)
    destruct (modelLoaded g) eqn:El.
    + rewrite Ht. apply startScan_ok; auto. now apply (GlobalsOk_loaded c).
    + destruct (startLoader_ok c g Hg) as [Hg' Hlog].
      unfold StepOk. cbn [fst snd]. rewrite Hlog.
      split; [exact Hg'|].
      split; [split; [exact Ht|exact Hr]|].
      split; [unfold startLoader; destruct (modelLoadingPromise g); auto|].
      exists []. simpl. now rewrite app_nil_r.
  - (* AwaitModel *)
    destruct (modelLoadingPromise g) as [| | | | | e | [u|e]] eqn:Ep;
      try (apply unchanged_ok; [exact Hg | split; simpl; auto]).
    + rewrite Ht. apply startScan_ok; auto. now apply (GlobalsOk_fulfilled c g u).
    + now elim (GlobalsOk_not_rejected c g e Hg).
  - (* AwaitBatch *)
    destruct Hr as [Hc [Hres [Hpend Hcalls]]]. rewrite Ht.
    assert (Hres' : results ++ nonNull pending
                    = analyzeAll c (firstn (i + batchSize) (matchSentences text))).
    { rewrite Hres, Hpend. change (nonNull (map (scored c) ?b)) with (analyzeAll c b).
      now rewrite <- analyzeAll_app, <- firstn_slice. }
    destruct (Nat.ltb_spec (i + batchSize) (List.length (matchSentences text))) as [Hlt|Hge].
    + apply issueBatch_ok; auto.
    + apply unchanged_ok; [exact Hg|]. split; [exact Ht|]. simpl.
      rewrite firstn_all2 in Hres', Hcalls by lia. auto.
  - (* AwaitStatsGet *)
    rewrite Hs. apply unchanged_ok; [exact Hg|]. split; [exact Ht|exact Hr].
  - (* AwaitStatsSet *)
    rewrite Hs. unfold StepOk. cbn [fst snd].
    split; [now apply withStorage_ok|].
    split; [split; [exact Ht|exact Hr]|].
    split; [auto|].
    exists []. simpl. now rewrite app_nil_r.
  - (* Done, returned *)
    apply unchanged_ok; [exact Hg|]. split; [exact Ht|exact Hr].
  - (* Done, thrown *)
    contradiction.
Qed.

Lemma setNth_length {A} (a : A) l : forall k, List.length (setNth k a l) = List.length l.
Proof. induction l as [|b l IH]; intros [|k]; simpl; auto. Qed.

Lemma nth_error_setNth_same {A} (a : A) l : forall k b,
  nth_error l k = Some b -> nth_error (setNth k a l) k = Some a.
Proof.
  induction l as [|x l IH]; intros [|k] b; simpl; try discriminate; auto.
  apply IH.
Qed.

Lemma nth_error_setNth_other {A} (a : A) l : forall k j,
  j <> k -> nth_error (setNth k a l) j = nth_error l j.
Proof.
  induction l as [|x l IH]; intros [|k] [|j] H; simpl; auto;
    try (now elim H).
Qed.

(** Every turn of the event loop keeps the invariant. *)
Lemma step_inv env c text n cfg t :
  Healthy env c -> Inv c text n cfg -> Inv c text n (step env cfg t).
Proof.
  intros Hh [Hg [Hn [Htags Hreq]]]. destruct t as [| |k]; simpl.
  - (* Boot *)
    destruct (startLoader_ok c _ Hg) as [Hg' Hlog].
    unfold Inv. cbn [globals requests]. rewrite Hlog.
    split; [exact Hg'|]. split; [exact Hn|]. split; [exact Htags|].
    intros j r Hj. specialize (Hreq j r Hj).
    replace (classifier (startLoader (globals cfg))) with (classifier (globals cfg));
      [exact Hreq|].
    unfold startLoader. destruct (modelLoadingPromise (globals cfg)); reflexivity.
  - (* Loader *)
    destruct (stepLoader_ok env c _ Hh Hg) as [Hg' Hlog].
    assert (Hmodel : classifier (globals cfg) = Some c ->
                     classifier (stepLoader env (globals cfg)) = Some c).
    { intro Hc. unfold GlobalsOk in Hg. unfold stepLoader.
      destruct Hh as [Hi [Hp [Hs Hw]]].
      destruct (modelLoadingPromise (globals cfg)) as [| | | | | e | [u|e]];
        try contradiction; rewrite ?Hi, ?Hp, ?Hs; simpl; auto.
      rewrite Hc. destruct (c warmupText); [exact Hc|now elim Hw]. }
    unfold Inv. cbn [globals requests].
    split; [exact Hg'|]. split; [exact Hn|]. split.
    + unfold stepLoader.
      destruct Hh as [Hi [Hp [Hs Hw]]].
      destruct (modelLoadingPromise (globals cfg)); rewrite ?Hi, ?Hp, ?Hs;
        simpl; auto.
      * apply Forall_app. split; auto. repeat constructor.
      * destruct (classifier (globals cfg)) as [c'|]; auto.
        destruct (c' warmupText); auto.
    + intros j r Hj. specialize (Hreq j r Hj). rewrite Hlog.
      unfold RequestOk in *. destruct Hreq as [Ht Hr]. split; [exact Ht|].
      destruct (pc r); auto.
      destruct Hr as [Hc Hr]. split; auto.
  - (* Req k *)
    destruct (nth_error (requests cfg) k) as [r|] eqn:Ek;
      [|unfold Inv; auto].
    pose proof (stepRequest_ok env c text k r (globals cfg) Hh Hg (Hreq k r Ek))
      as [Hg' [Hr' [Hmodel [added Hlog]]]].
    destruct (stepRequest env k r (globals cfg)) as [pc' g']. cbn [fst snd] in *.
    unfold Inv. cbn [globals requests].
    split; [exact Hg'|]. split; [now rewrite setNth_length|]. split.
    + rewrite Hlog. apply Forall_app. split; auto.
      apply Forall_forall. intros e He. apply in_map_iff in He.
      destruct He as [s0 [<- _]]. unfold tagBelow. simpl.
      rewrite <- Hn. apply nth_error_Some. congruence.
    + intros j rj Hj. destruct (Nat.eq_dec j k) as [->|Hne].
      * rewrite (nth_error_setNth_same _ _ _ _ Ek) in Hj.
        injection Hj as <-. exact Hr'.
      * rewrite nth_error_setNth_other in Hj by exact Hne.
        specialize (Hreq j rj Hj). rewrite Hlog, callsBy_app.
        rewrite (callsBy_tagged_other (ByRequest j) (ByRequest k))
          by (intro E; injection E; lia).
        rewrite app_nil_r.
        unfold RequestOk in *. destruct Hreq as [Ht Hr]. split; [exact Ht|].
        destruct (pc rj); auto.
        destruct Hr as [Hc Hr]. split; auto.
Qed.

Lemma run_inv env c text n schedule : forall cfg,
  Healthy env c -> Inv c text n cfg -> Inv c text n (run env schedule cfg).
Proof.
  induction schedule as [|t schedule IH]; intros cfg Hh Hinv; simpl; auto.
  apply IH; auto. now apply step_inv.
Qed.

Lemma arrivals_inv c text n : Inv c text n (arrivals n text).
Proof.
  unfold Inv, arrivals. cbn [globals requests].
  split; [unfold GlobalsOk; simpl; auto|].
  split; [apply repeat_length|]. split; [constructor|].
  intros k r Hk. apply nth_error_In, repeat_spec in Hk. subst.
  split; reflexivity.
Qed.

(** *** Counting the calls of all requests *)

Lemma list_sum_const (K : nat) l : list_sum (map (fun _ : nat => K) l) = List.length l * K.
Proof. induction l as [|a l IH]; simpl; auto. Qed.

Lemma list_sum_bump (f : nat -> nat) (j : nat) : forall n a,
  list_sum (map (fun k => (if j =? k then 1 else 0) + f k) (seq a n)) =
  (if (a <=? j) && (j <? a + n) then 1 else 0) + list_sum (map f (seq a n)).
Proof.
  induction n as [|n IH]; intro a; simpl.
  - destruct (Nat.leb_spec a j), (Nat.ltb_spec j (a + 0)); simpl; lia.
  - rewrite IH.
    destruct (Nat.eqb_spec j a), (Nat.leb_spec a j), (Nat.leb_spec (S a) j),
      (Nat.ltb_spec j (S a + n)), (Nat.ltb_spec j (a + S n)); simpl; lia.
Qed.

Lemma requestCalls_count n log :
  Forall (tagBelow n) log ->
  List.length (requestCalls log) =
  list_sum (map (fun k => List.length (callsBy (ByRequest k) log)) (seq 0 n)).
Proof.
  induction log as [|[who s0] log IH]; intro H.
  - simpl. now rewrite (list_sum_const 0), Nat.mul_0_r.
  - inversion H as [|e l Htag Hrest]; subst. specialize (IH Hrest).
    destruct who as [|j].
    + unfold requestCalls, callsBy in *. simpl. exact IH.
    + unfold tagBelow in Htag. simpl in Htag.
      transitivity
        (list_sum (map (fun k => (if j =? k then 1 else 0)
                                 + List.length (callsBy (ByRequest k) log))
                       (seq 0 n))).
      * rewrite list_sum_bump. simpl.
        destruct (Nat.ltb_spec j n); [|lia].
        unfold requestCalls in *. simpl. now rewrite IH.
      * f_equal. apply map_ext. intro k. unfold callsBy. simpl.
        destruct (j =? k); reflexivity.
Qed.

Lemma allDone_nth cfg k :
  allDone cfg = true -> k < List.length (requests cfg) ->
  exists r outcome, nth_error (requests cfg) k = Some r /\ pc r = Done outcome.
Proof.
  unfold allDone. rewrite forallb_forall. intros H Hk.
  destruct (nth_error (requests cfg) k) as [r|] eqn:E.
  - specialize (H r (nth_error_In _ _ E)). unfold isDone in H.
    destruct (pc r) eqn:Epc; try discriminate. eauto.
  - apply nth_error_None in E. lia.
Qed.

(** *** A schedule that lets every request finish *)

Lemma issueBatch_ready c k sentences i results g :
  Ready c g ->
  Ready c (snd (issueBatch k sentences i results g)) /\
  exists pending, fst (issueBatch k sentences i results g) = AwaitBatch i results pending.
Proof.
  intros [H1 [H2 H3]]. unfold issueBatch. rewrite H2. simpl.
  split; [repeat split; auto | eauto].
Qed.

Lemma stepRequest_progress env c k r g :
  storageOk env = true -> Ready c g ->
  Ready c (snd (stepRequest env k r g)) /\
  (stepsLeft (text r) (fst (stepRequest env k r g)) < stepsLeft (text r) (pc r) \/
   stepsLeft (text r) (pc r) = 0 /\ stepsLeft (text r) (fst (stepRequest env k r g)) = 0).
Proof.
  intros Hs Hready. pose proof Hready as [H1 [H2 H3]].
  assert (Hscan : Ready c (snd (startScan k (text r) g)) /\
                  stepsLeft (text r) (fst (startScan k (text r) g))
                  < List.length (matchSentences (text r)) + 4).
  { unfold startScan. rewrite H2.
    destruct (List.length (matchSentences (text r)) =? 0); simpl.
    - split; [exact Hready | lia].
    - destruct (issueBatch_ready c k (matchSentences (text r)) 0 [] g Hready)
        as [Hr [pending Hp]].
      split; [exact Hr|]. rewrite Hp. simpl. lia. }
  unfold stepRequest.
  destruct (pc r) as [| |i results pending|results|results stats|outcome]; simpl.
  - rewrite H1. destruct Hscan as [Hr Hlt]. split; [exact Hr | left; exact Hlt].
  - rewrite H3. destruct Hscan as [Hr Hlt]. split; [exact Hr | left; exact Hlt].
  - destruct (Nat.ltb_spec (i + batchSize) (List.length (matchSentences (text r)))).
    + destruct (issueBatch_ready c k (matchSentences (text r)) (i + batchSize)
                  (results ++ nonNull pending) g Hready) as [Hr [pending' Hp]].
      split; [exact Hr|]. rewrite Hp. simpl. unfold batchSize in *. lia.
    + simpl. split; [exact Hready | lia].
  - rewrite Hs. simpl. split; [exact Hready | lia].
  - rewrite Hs. simpl. split; [repeat split; auto | lia].
  - split; [exact Hready | right; auto].
Qed.

(** Turns given to request [k] alone finish it and leave the others as they
    are. *)
Lemma finish_one env c k m : forall cfg r,
  storageOk env = true -> Ready c (globals cfg) ->
  nth_error (requests cfg) k = Some r -> stepsLeft (text r) (pc r) <= m ->
  let cfg' := run env (repeat (Req k) m) cfg in
  Ready c (globals cfg') /\
  List.length (requests cfg') = List.length (requests cfg) /\
  (exists r', nth_error (requests cfg') k = Some r' /\ isDone r' = true) /\
  (forall j, j <> k -> nth_error (requests cfg') j = nth_error (requests cfg) j).
Proof.
  induction m as [|m IH]; intros cfg r Hs Hready Hk Hm; simpl.
  - split; [exact Hready|]. split; [reflexivity|]. split; [|auto].
    exists r. split; [exact Hk|].
    unfold isDone. destruct (pc r); simpl in Hm; auto; lia.
  - rewrite Hk.
    destruct (stepRequest_progress env c k r (globals cfg) Hs Hready) as [Hr Hp].
    destruct (stepRequest env k r (globals cfg)) as [pc' g'] eqn:E.
    cbn [fst snd] in *.
    set (cfg1 := {| globals := g';
                    requests := setNth k {| text := text r; pc := pc' |} (requests cfg) |}).
    assert (Hk1 : nth_error (requests cfg1) k = Some {| text := text r; pc := pc' |})
      by (apply (nth_error_setNth_same _ _ _ _ Hk)).
    destruct (IH cfg1 _ Hs Hr Hk1) as [Hr' [Hlen [Hdone Hothers]]].
    { cbn [text pc]. lia. }
    split; [exact Hr'|]. split.
    + rewrite Hlen. apply setNth_length.
    + split; [exact Hdone|].
      intros j Hj. rewrite (Hothers j Hj). now apply nth_error_setNth_other.
Qed.

Lemma run_app env s1 s2 cfg : run env (s1 ++ s2) cfg = run env s2 (run env s1 cfg).
Proof. unfold run. apply fold_left_app. Qed.

Lemma finish_in_turn env c text m ks : forall cfg,
  storageOk env = true -> Ready c (globals cfg) ->
  (forall j r, nth_error (requests cfg) j = Some r ->
               Concurrent.text r = text /\
               (isDone r = true \/ pc r = Arrived)) ->
  List.length (matchSentences text) + 4 <= m ->
  let cfg' := run env (inTurn m ks) cfg in
  List.length (requests cfg') = List.length (requests cfg) /\
  (forall j r, nth_error (requests cfg') j = Some r ->
               (In j ks \/ exists r0, nth_error (requests cfg) j = Some r0 /\ isDone r0 = true) ->
               isDone r = true).
Proof.
  induction ks as [|k ks IH]; intros cfg Hs Hready Hall Hm; simpl.
  - split; [reflexivity|]. intros j r Hj [[]|[r0 [H0 Hd]]]. congruence.
  - rewrite run_app.
    destruct (nth_error (requests cfg) k) as [rk|] eqn:Ek.
    + destruct (Hall k rk Ek) as [Htext Hpc].
      assert (Hleft : stepsLeft (Concurrent.text rk) (pc rk) <= m).
      { rewrite Htext. destruct Hpc as [Hd|Ha].
        - unfold isDone in Hd. destruct (pc rk); try discriminate. simpl. lia.
        - rewrite Ha. simpl. lia. }
      destruct (finish_one env c k m cfg rk Hs Hready Ek Hleft)
        as [Hr1 [Hlen1 [[r1 [Hk1 Hd1]] Hothers]]].
      set (cfg1 := run env (repeat (Req k) m) cfg) in *.
      assert (Hall1 : forall j r, nth_error (requests cfg1) j = Some r ->
                        Concurrent.text r = text /\ (isDone r = true \/ pc r = Arrived)).
      { intros j r Hj. destruct (Nat.eq_dec j k) as [->|Hne].
        - rewrite Hk1 in Hj. injection Hj as <-. split; [|left; exact Hd1].
          (* the text of a request never changes *)
          clear - Hk1 Ek Htext Hs Hready.
          revert Hk1. unfold cfg1. clear cfg1.
          revert cfg rk Ek Htext Hready.
          induction m as [|m IHm]; intros cfg rk Ek Htext Hready; simpl.
          + intro H. congruence.
          + rewrite Ek.
            destruct (stepRequest_progress env c k rk (globals cfg) Hs Hready) as [Hr _].
            destruct (stepRequest env k rk (globals cfg)) as [pc' g'].
            cbn [snd] in Hr.
            apply (IHm _ {| text := Concurrent.text rk; pc := pc' |}); auto.
            apply (nth_error_setNth_same _ _ _ _ Ek).
        - rewrite (Hothers j Hne) in Hj. apply (Hall j r Hj). }
      destruct (IH cfg1 Hs Hr1 Hall1 Hm) as [Hlen2 Hdone2].
      split; [now rewrite Hlen2|].
      intros j r Hj [[->|Hin]|[r0 [H0 Hd0]]].
      * apply (Hdone2 j r Hj). right. eauto.
      * apply (Hdone2 j r Hj). left. exact Hin.
      * apply (Hdone2 j r Hj). right.
        destruct (Nat.eq_dec j k) as [->|Hne]; [eauto|].
        exists r0. rewrite (Hothers j Hne). auto.
    + (* no request [k]: its turns change nothing *)
      assert (Hsame : run env (repeat (Req k) m) cfg = cfg).
      { clear - Ek. induction m as [|m IHm]; simpl; auto. now rewrite Ek. }
      rewrite Hsame.
      destruct (IH cfg Hs Hready Hall Hm) as [Hlen2 Hdone2].
      split; [exact Hlen2|].
      intros j r Hj [[->|Hin]|Hd].
      * exfalso. apply nth_error_None in Ek.
        assert (j < List.length (requests (run env (inTurn m ks) cfg)))
          by (apply nth_error_Some; congruence).
        lia.
      * apply (Hdone2 j r Hj). left. exact Hin.
      * apply (Hdone2 j r Hj). right. exact Hd.
Qed.

Lemma oneByOne_completes env c n text :
  Healthy env c ->
  allDone (run env (oneByOne n text) (arrivals n text)) = true.
Proof.
  intros [Hi [Hp [Hs Hw]]]. unfold oneByOne. rewrite run_app.
  set (cfg0 := run env [Boot; Loader; Loader; Loader; Loader] (arrivals n text)).
  assert (Hready : Ready c (globals cfg0)).
  { unfold cfg0. simpl. unfold stepLoader at 4. simpl. rewrite Hi.
    unfold stepLoader at 3. simpl. rewrite Hp.
    unfold stepLoader at 2. simpl. rewrite Hs.
    unfold stepLoader. simpl.
    destruct (c warmupText); [|now elim Hw]. repeat split. }
  assert (Hreqs : requests cfg0 = requests (arrivals n text)) by reflexivity.
  destruct (finish_in_turn env c text (List.length (matchSentences text) + 4)
              (seq 0 n) cfg0 Hs Hready) as [Hlen Hdone].
  - intros j r Hj. rewrite Hreqs in Hj. simpl in Hj.
    apply nth_error_In, repeat_spec in Hj. subst. simpl. auto.
  - lia.
  - unfold allDone. apply forallb_forall. intros r Hin.
    apply In_nth_error in Hin. destruct Hin as [j Hj].
    apply (Hdone j r Hj). left. apply in_seq.
    assert (Hj' : j < List.length (requests
                    (run env (inTurn (List.length (matchSentences text) + 4) (seq 0 n)) cfg0)))
      by (apply nth_error_Some; congruence).
    rewrite Hlen, Hreqs in Hj'. simpl in Hj'. rewrite repeat_length in Hj'. lia.
Qed.

End ConcurrentFacts.

(* ================================================================= *)
(** ** Facts about the content key deriver *)

Module KeyFacts.
Import Text SpanFacts KeyDeriver.

Lemma collapseFrom_tidy s : forall b, tidyFrom b (collapseFrom b s).
Proof.
  induction s as [|c s IH]; intro b; simpl; auto.
  destruct (isWhiteSpace c) eqn:E.
  - destruct b; [apply IH|]. simpl. auto.
  - simpl. rewrite E. apply IH.
Qed.

Lemma tidyFrom_fixed s : forall b, tidyFrom b s -> collapseFrom b s = s.
Proof.
  induction s as [|c s IH]; intro b; simpl; auto.
  destruct (isWhiteSpace c).
  - intros [-> [-> H]]. now rewrite (IH true H).
  - intro H. now rewrite (IH false H).
Qed.

Lemma tidyFrom_relax s b : tidyFrom b s -> tidyFrom false s.
Proof.
  destruct s as [|c s]; simpl; auto.
  destruct (isWhiteSpace c); auto. intros [_ H]. auto.
Qed.

Lemma tidyFrom_dropWhile s : forall b,
  tidyFrom b s -> tidyFrom false (dropWhile isWhiteSpace s).
Proof.
  induction s as [|c s IH]; intro b; simpl; auto.
  destruct (isWhiteSpace c) eqn:E.
  - intros [_ [_ H]]. apply (IH true H).
  - intro H. simpl. now rewrite E.
Qed.

Lemma tidyFrom_prefix x y : forall b, tidyFrom b (x ++ y) -> tidyFrom b x.
Proof.
  induction x as [|c x IH]; intro b; simpl; auto.
  destruct (isWhiteSpace c).
  - intros [H1 [H2 H3]]. repeat split; auto.
  - apply IH.
Qed.

Lemma trimEnd_prefix s : exists r, s = trimEnd s ++ r.
Proof.
  unfold trimEnd.
  destruct (SpanFacts.dropWhile_suffix isWhiteSpace (rev s)) as [l Hl].
  exists (rev l). rewrite <- rev_app_distr, <- Hl. now rewrite rev_involutive.
Qed.

Lemma tidyFrom_trim s : tidyFrom false s -> tidyFrom false (trim s).
Proof.
  intro H. unfold trim.
  destruct (trimEnd_prefix (trimStart s)) as [r Hr].
  apply (tidyFrom_prefix _ r). rewrite <- Hr.
  now apply (tidyFrom_dropWhile s false).
Qed.

Lemma dropWhile_noLeadingWs s : noLeadingWs (dropWhile isWhiteSpace s).
Proof.
  induction s as [|c s IH]; simpl; auto.
  destruct (isWhiteSpace c) eqn:E; simpl; auto.
Qed.

Lemma noLeadingWs_dropWhile s : noLeadingWs s -> dropWhile isWhiteSpace s = s.
Proof.
  destruct s as [|c s]; simpl; auto. now intros ->.
Qed.

Lemma dropWhile_snoc s c :
  isWhiteSpace c = false ->
  dropWhile isWhiteSpace (s ++ [c]) = dropWhile isWhiteSpace s ++ [c].
Proof.
  intro H. induction s as [|d s IH]; simpl.
  - now rewrite H.
  - destruct (isWhiteSpace d); auto.
Qed.

Lemma trimEnd_cons c s :
  isWhiteSpace c = false -> trimEnd (c :: s) = c :: trimEnd s.
Proof.
  intro H. unfold trimEnd. simpl rev.
  rewrite (dropWhile_snoc _ _ H), rev_app_distr. reflexivity.
Qed.

Lemma trimEnd_noLeadingWs s : noLeadingWs s -> noLeadingWs (trimEnd s).
Proof.
  destruct s as [|c s]; simpl; auto.
  intro H. now rewrite (trimEnd_cons _ _ H).
Qed.

Lemma trimEnd_trimEnd s : trimEnd (trimEnd s) = trimEnd s.
Proof.
  unfold trimEnd. rewrite rev_involutive.
  now rewrite (noLeadingWs_dropWhile _ (dropWhile_noLeadingWs (rev s))).
Qed.

(** [trim] does nothing to a trimmed string. *)
Lemma trim_trim s : trim (trim s) = trim s.
Proof.
  unfold trim at 1. unfold trimStart.
  rewrite noLeadingWs_dropWhile.
  - unfold trim. apply trimEnd_trimEnd.
  - unfold trim. apply trimEnd_noLeadingWs, dropWhile_noLeadingWs.
Qed.

Lemma normalize_tidy t : tidyFrom false (normalize t).
Proof. apply tidyFrom_trim, collapseFrom_tidy. Qed.

Lemma normalize_idempotent t : normalize (normalize t) = normalize t.
Proof.
  unfold normalize at 1. unfold collapse.
  rewrite (tidyFrom_fixed _ false (normalize_tidy t)).
  apply trim_trim.
Qed.

End KeyFacts.

(* ================================================================= *)
(** ** The claims about the scan operation *)

Module ScanClaims.
Import Text Prob Background Scan ScanFacts ProbFacts FloatFacts Demo Statements
  Samples.
Local Open Scope float_scope.







(** C10, counterexample: a model score that is NaN gives a probability that
    is NaN, which is neither at least 0 nor at most 1. *)
Lemma nan_score_leaves_the_range : ~ ProbabilityInRange keywordSentence nan.
Proof.
  unfold ProbabilityInRange. vm_compute. intros [H _]. discriminate.
Qed.

(** C10, as the code has it: for every sentence text and every model score
    that is not NaN (the infinities included),
    [calculateAIProbability] returns [p] with [0 <= p <= 1]; the level is
    [high] exactly when [p > 0.7], [medium] exactly when [0.4 < p <= 0.7] and
    [low] exactly when [p <= 0.4]; and every record of every list a scan
    returns carries the probability computed from its text and model score and
    the level of that probability. *)
Theorem probability_clamped_and_level_consistent :
  (forall (text : jsstring) (s : float),
      is_nan s = false ->
      let p := calculateAIProbability text s in
      ((0 <=? p) = true /\ (p <=? 1) = true) /\
      (levelOf p = high <-> (0.7 <? p) = true) /\
      (levelOf p = medium <-> (0.4 <? p) = true /\ (p <=? 0.7) = true) /\
      (levelOf p = low <-> (p <=? 0.4) = true)) /\
  (forall env text w rs w' r,
      handleAnalyzeText env text w = (Return rs, w') -> In r rs ->
      probability r = calculateAIProbability (Background.text r) (modelScore r) /\
      level r = levelOf (probability r)).
Proof.
  split.
  - intros text s Hs p.
    pose proof (calculateAIProbability_range text s Hs) as [H0 H1].
    fold p in H0, H1.
    split; [split; assumption|].
    split; [apply levelOf_high|].
    split; [apply levelOf_medium|].
    apply levelOf_low. now apply leb_true_numbers in H1.
  - intros env text w rs w' r Hrun Hin.
    apply handleAnalyzeText_returns in Hrun. destruct Hrun as [c ->].
    apply In_analyzeAll in Hin.
    destruct Hin as [sentence [output H]]. tauto.
Qed.

Lemma probability_clamped_and_level_consistent_witness :
  (let p := calculateAIProbability keywordSentence 0.99 in
   ((0 <=? p) = true /\ (p <=? 1) = true) /\
   (levelOf p = high <-> (0.7 <? p) = true) /\
   (levelOf p = medium <-> (0.4 <? p) = true /\ (p <=? 0.7) = true) /\
   (levelOf p = low <-> (p <=? 0.4) = true)) /\
  (forall r,
      In r (analyzeAll steadyClassifier (matchSentences twoSentences)) ->
      probability r = calculateAIProbability (Background.text r) (modelScore r) /\
      level r = levelOf (probability r)).
Proof.
  split.
  - apply (proj1 probability_clamped_and_level_consistent keywordSentence 0.99).
    reflexivity.
  - intros r Hin.
    apply (proj2 probability_clamped_and_level_consistent calmEnv twoSentences
             loadedWorld
             (analyzeAll steadyClassifier (matchSentences twoSentences))
             (afterScan steadyClassifier twoSentences loadedWorld) r);
      [reflexivity | exact Hin].
Defined.

End ScanClaims.

(* ================================================================= *)
(** ** The claims about the shape and the place of the results *)

Module ResultClaims.
Import Text Prob JS Background Scan ScanFacts SpanFacts Wire Demo.

(** C7, counterexample: the value returned for a one-sentence text is an
    array of result records; it has no [highlights], no [rulesetVersion] and
    no [servedFromCache]. *)
Lemma scan_value_is_not_a_scan_record :
  exists rs w',
    handleAnalyzeText calmEnv oneSentence loadedWorld = (Return rs, w') /\
    ~ ScanRecord (returnValue rs).
Proof.
  eexists. eexists. split; [reflexivity|].
  intros [highlights [version [served [H _]]]]. discriminate H.
Qed.

(** C7, as the code has it: for every input text, with the model loaded and
    the storage area working, the one scan operation [handleAnalyzeText]
    returns an array with one record for each sentence of trimmed length at
    least 15 that the classifier answers, in the order of the text; each
    record has the five fields text, probability, level, modelScore and
    modelLabel and no other; the value carries no ruleset version and no
    [servedFromCache] flag, and the listener answers
    [{ success: true, result }] with it. *)
Theorem scan_returns_array_of_result_records
    (env : Env) (text : jsstring) (w : World) (c : Classifier) :
  modelLoaded w = true -> classifier w = Some c -> storageOk env = true ->
  exists rs w',
    handleAnalyzeText env text w = (Return rs, w') /\
    onMessage env true (AnalyzeText text) w = (AnalysisDone rs, w') /\
    rs = analyzeAll c (matchSentences text) /\
    (exists items, returnValue rs = JSArray items /\
                   List.length items = List.length rs /\
                   Forall (fun v => fieldNames v = resultFields) items) /\
    getField (str "rulesetVersion") (returnValue rs) = JSUndefined /\
    getField (str "servedFromCache") (returnValue rs) = JSUndefined.
Proof.
  intros Hl Hc Hs.
  exists (analyzeAll c (matchSentences text)), (afterScan c text w).
  pose proof (handleAnalyzeText_loaded env text w c Hl Hc Hs) as Hrun.
  split; [exact Hrun|]. split.
  - unfold onMessage. simpl. now rewrite Hrun.
  - split; [reflexivity|]. split; [|split; reflexivity].
    exists (map resultObject (analyzeAll c (matchSentences text))).
    split; [reflexivity|]. split; [apply length_map|].
    apply Forall_forall. intros v Hv. apply in_map_iff in Hv.
    destruct Hv as [r [<- _]]. reflexivity.
Qed.

Lemma scan_returns_array_of_result_records_witness :
  exists rs w',
    handleAnalyzeText calmEnv twoSentences loadedWorld = (Return rs, w') /\
    onMessage calmEnv true (AnalyzeText twoSentences) loadedWorld = (AnalysisDone rs, w') /\
    rs = analyzeAll steadyClassifier (matchSentences twoSentences) /\
    (exists items, returnValue rs = JSArray items /\
                   List.length items = List.length rs /\
                   Forall (fun v => fieldNames v = resultFields) items) /\
    getField (str "rulesetVersion") (returnValue rs) = JSUndefined /\
    getField (str "servedFromCache") (returnValue rs) = JSUndefined.
Proof.
  apply (scan_returns_array_of_result_records calmEnv twoSentences loadedWorld
           steadyClassifier); reflexivity.
Defined.

(** C8, counterexample: the record returned for a one-sentence text has no
    [startOffset] and no [endOffset]. *)
Lemma result_record_has_no_offsets :
  exists r w',
    handleAnalyzeText calmEnv oneSentence loadedWorld = (Return [r], w') /\
    ~ OffsetHighlight oneSentence (resultObject r).
Proof.
  eexists. eexists. split; [reflexivity|].
  intros [a [b [H _]]]. discriminate H.
Qed.

(** C8, as the code has it: a result record carries the trimmed sentence, not
    offsets.  For every scanned text the texts of the returned records are
    pieces of that text at places [(a, b)] with [0 <= a < b <= len(text)];
    the places do not overlap and ascend in the order of the list. *)
Theorem results_lie_in_text_in_order
    (env : Env) (text : jsstring) (w w' : World) (rs : list AnalysisResult) :
  handleAnalyzeText env text w = (Return rs, w') ->
  exists spans,
    Forall2 (fun r ab => Background.text r = slice (fst ab) (snd ab) text) rs spans /\
    disjointAscending 0 (List.length text) spans.
Proof.
  intro Hrun. apply handleAnalyzeText_returns in Hrun.
  destruct Hrun as [c ->]. apply analyzeAll_in_text.
Qed.

Lemma results_lie_in_text_in_order_witness :
  exists spans,
    Forall2 (fun r ab => Background.text r = slice (fst ab) (snd ab) twoSentences)
            (analyzeAll steadyClassifier (matchSentences twoSentences)) spans /\
    disjointAscending 0 (List.length twoSentences) spans.
Proof.
  apply (results_lie_in_text_in_order calmEnv twoSentences loadedWorld
           (afterScan steadyClassifier twoSentences loadedWorld)).
  reflexivity.
Defined.

End ResultClaims.

(* ================================================================= *)
(** ** The claim about the feedback store *)

Module ServerClaims.
Import Text JS Server Statements.

(** C4, counterexample: with a capacity of 2, three POSTs with distinct
    hashes leave three entries in the store. *)
Lemma three_posts_exceed_capacity_two : ~ EvictionBound 2 threePosts.
Proof.
  unfold EvictionBound. vm_compute. intro H.
  assert (H3 : 3 <= 2) by (apply H; repeat constructor). lia.
Qed.

Lemma postAll_cons data t posts store :
  postAll ((data, t) :: posts) store = postAll posts (fst (postFeedback data t store)).
Proof. reflexivity. Qed.

Lemma postAll_app posts : forall store,
  exists entries,
    postAll posts store = store ++ entries /\
    map timestamp entries = map snd posts.
Proof.
  induction posts as [|[data t] posts IH]; intro store.
  - exists []. split; [now rewrite app_nil_r | reflexivity].
  - rewrite postAll_cons.
    destruct (IH (fst (postFeedback data t store))) as [entries [H1 H2]].
    rewrite H1. unfold postFeedback at 1. simpl fst.
    eexists (_ :: entries). rewrite <- app_assoc. split; [reflexivity|].
    simpl. now rewrite H2.
Qed.

(** C4, as the code has it: the feedback store has no capacity and no
    eviction.  Every POST appends one entry; after any sequence of POSTs the
    store is the old store followed by one entry per POST in arrival order,
    so its length is the old length plus the number of POSTs, and the count
    in each answer is the length at that moment.  Its growth is not bounded:
    any bound is exceeded after enough POSTs. *)
Theorem feedback_store_grows_without_eviction
    (posts : list (JSValue * jsstring)) (store : Store) :
  (exists entries,
      postAll posts store = store ++ entries /\
      map timestamp entries = map snd posts) /\
  List.length (postAll posts store) = List.length store + List.length posts /\
  (forall data t, count (snd (postFeedback data t store)) = S (List.length store)) /\
  (forall bound, exists more,
      bound < List.length (postAll (posts ++ more) store)).
Proof.
  assert (Hlen : forall ps st,
             List.length (postAll ps st) = List.length st + List.length ps).
  { intros ps st. destruct (postAll_app ps st) as [entries [H1 H2]].
    rewrite H1, length_app. f_equal.
    now rewrite <- (length_map timestamp), H2, length_map. }
  split; [apply postAll_app|]. split; [apply Hlen|]. split.
  - intros data t. simpl. rewrite length_app. simpl. lia.
  - intro bound.
    exists (repeat (JSObject [], []) (S bound)).
    rewrite Hlen, length_app, repeat_length. lia.
Qed.

End ServerClaims.

(* ================================================================= *)
(** ** The claims about failures *)

Module FailureClaims.
Import Text Prob Background Scan ScanFacts Demo.
Local Open Scope async_scope.

(** A loader that throws leaves [modelLoaded] false. *)
Lemma loaderBody_throws env w e w' :
  loaderBody env w = (Throw e, w') -> modelLoaded w' = false.
Proof.
  unfold loaderBody, tryCatch, bind, storageSet, modify, callClassifier, ret, throw.
  destruct (importOk env); [destruct (pipeline env) as [c|]|];
    destruct (storageOk env); try destruct (c warmupText);
    simpl; intro H; inversion H; reflexivity.
Qed.

(** With [modelLoaded] false and a rejected promise in the global, a scan
    throws the reason of the rejection and changes nothing. *)
Lemma rejected_promise_blocks_scan env text w e :
  modelLoaded w = false -> modelLoadingPromise w = Some (Throw e) ->
  handleAnalyzeText env text w = (Throw e, w).
Proof.
  intros Hl Hp. unfold handleAnalyzeText, bind at 1.
  rewrite Hl. unfold initializeModel. now rewrite Hp.
Qed.

(** C5, on the code: a model load that fails leaves the rejected promise in
    [modelLoadingPromise] and [modelLoaded] false; every later scan, whatever
    the outside does by then, gets the same rejection back, runs the loader
    no more and calls no classifier: the state does not change.  The status
    request answers [loading: true] from then on. *)
Theorem failed_load_is_never_retried (env : Env) (w w1 : World) (e : Error) :
  modelLoadingPromise w = None ->
  initializeModel env w = (Throw e, w1) ->
  modelLoadingPromise w1 = Some (Throw e) /\
  modelLoaded w1 = false /\
  loads w1 = S (loads w) /\
  (forall env' text, handleAnalyzeText env' text w1 = (Throw e, w1)) /\
  (forall env', onMessage env' true GetModelStatus w1 = (ModelStatus false true, w1)).
Proof.
  intros Hnone Hrun. unfold initializeModel in Hrun. rewrite Hnone in Hrun.
  destruct (loaderBody env (countLoad w)) as [r w'] eqn:Hbody.
  injection Hrun as -> <-.
  pose proof (loaderBody_throws _ _ _ _ Hbody) as Hl.
  assert (Hloads : loads w' = S (loads w)).
  { revert Hbody.
    unfold loaderBody, tryCatch, bind, storageSet, modify, callClassifier, ret, throw.
    destruct (importOk env); [destruct (pipeline env) as [c|]|];
      destruct (storageOk env); try destruct (c warmupText);
      simpl; intro H; inversion H; reflexivity. }
  split; [reflexivity|]. split; [exact Hl|]. split; [exact Hloads|]. split.
  - intros env' text. apply rejected_promise_blocks_scan; auto.
  - intros env'. unfold onMessage. simpl. now rewrite Hl.
Qed.

Lemma failed_load_is_never_retried_witness :
  modelLoadingPromise (snd (initializeModel brokenEnv initialWorld))
    = Some (Throw PipelineFailed) /\
  modelLoaded (snd (initializeModel brokenEnv initialWorld)) = false /\
  loads (snd (initializeModel brokenEnv initialWorld)) = S (loads initialWorld) /\
  (forall env' text,
      handleAnalyzeText env' text (snd (initializeModel brokenEnv initialWorld))
      = (Throw PipelineFailed, snd (initializeModel brokenEnv initialWorld))) /\
  (forall env',
      onMessage env' true GetModelStatus (snd (initializeModel brokenEnv initialWorld))
      = (ModelStatus false true, snd (initializeModel brokenEnv initialWorld))).
Proof.
  apply (failed_load_is_never_retried brokenEnv initialWorld); reflexivity.
Defined.

(** C6, on the code: when the tenth feedback item arrives and the backend
    cannot be reached or answers with an error status, the request still
    succeeds and the failure does not reach the caller, but the storage area
    is emptied all the same: the ten items are in neither place. *)
Theorem failed_send_clears_stored_feedback
    (env : Env) (feedback : Feedback) (w : World) (waiting : list FeedbackItem) :
  storageOk env = true ->
  st_feedbackData (storage w) = Some waiting ->
  9 <= List.length waiting ->
  fetchResult env <> FetchResponse true ->
  exists w',
    handleFeedback env feedback w = (Return tt, w') /\
    st_feedbackData (storage w') = Some [] /\
    delivered w' = delivered w.
Proof.
  intros Hs Hw Hlen Hfetch.
  assert (E : (10 <=? List.length
                 (waiting ++ [{| item := feedback; timestamp := now env |}])) = true)
    by (apply Nat.leb_le; rewrite length_app; simpl; lia).
  unfold handleFeedback, bind, storageGet, storageSet.
  rewrite Hs, Hw, E.
  unfold sendFeedbackToBackend.
  destruct (fetchResult env) as [|[|]]; try (now elim Hfetch);
    unfold ret; eexists; repeat split.
Qed.

Lemma failed_send_clears_stored_feedback_witness :
  exists w',
    handleFeedback calmEnv thumbsUp nineWaiting = (Return tt, w') /\
    st_feedbackData (storage w') = Some [] /\
    delivered w' = delivered nineWaiting.
Proof.
  apply (failed_send_clears_stored_feedback calmEnv thumbsUp nineWaiting
           (repeat {| item := thumbsUp; timestamp := 1699999999000%Z |} 9));
    [reflexivity | reflexivity | simpl; lia | discriminate].
Defined.

End FailureClaims.

(* ================================================================= *)
(** ** The claim about the content key deriver *)

Module KeyClaims.
Import Text KeyDeriver KeyFacts.

(** C9: normalization is a total function of the string, the empty string
    normalizes to the empty string, normalizing twice is normalizing once, and
    the key is a function of the normalized text: two calls on one text agree,
    and texts with the same normal form have the same key. *)
Theorem normalize_idempotent_deriveKey_deterministic
    (Key : Type) (hash : jsstring -> Key) :
  (forall t, exists n, normalize t = n /\ normalize n = n) /\
  normalize [] = [] /\
  (forall t, normalize (normalize t) = normalize t) /\
  (forall t, deriveKey Key hash t = deriveKey Key hash t) /\
  (forall t1 t2, normalize t1 = normalize t2 ->
                 deriveKey Key hash t1 = deriveKey Key hash t2).
Proof.
  split; [|split; [|split; [|split]]].
  - intro t. exists (normalize t). split; [reflexivity|apply normalize_idempotent].
  - reflexivity.
  - apply normalize_idempotent.
  - reflexivity.
  - intros t1 t2 H. unfold deriveKey. now rewrite H.
Qed.

(** The example of the design: "Hello   world." and "Hello world." share a
    key, whatever the hash function (here the identity). *)
Lemma normalize_idempotent_deriveKey_deterministic_witness :
  normalize (str " Hello   world. ") = str "Hello world." /\
  deriveKey jsstring (fun n => n) (str "Hello   world.")
  = deriveKey jsstring (fun n => n) (str "Hello world.").
Proof.
  split; [reflexivity|].
  apply (proj2 (proj2 (proj2 (proj2
           (normalize_idempotent_deriveKey_deterministic jsstring (fun n => n)))))).
  reflexivity.
Defined.

End KeyClaims.

(* ================================================================= *)
(** ** The claim about requests that overlap in time *)

Module ConcurrencyClaims.
Import Text Prob Background Scan ScanFacts Concurrent Invariants ConcurrentFacts Demo Statements.

(** C2, counterexample: two overlapping requests for a one-sentence text
    share the model load, and each calls the classifier for the sentence. *)
Lemma two_overlapping_scans_call_twice :
  ~ DedupUnderConcurrency calmEnv 2 oneSentence twoOverlapping.
Proof.
  unfold DedupUnderConcurrency. vm_compute. intro H.
  destruct (H eq_refl) as [H1 _]. discriminate H1.
Qed.

(** C2, as the code has it: only the model load is deduplicated.  With a
    healthy environment, for every number of requests carrying the same text
    on a worker that has just started and every interleaving of their steps
    with the loader: the loader runs at most once; a request that is done has
    returned the result list of the text and has itself called the classifier
    once for each sentence of trimmed length at least 15, in order; when all
    [n] requests are done they have made [n] times that many calls and have
    all received the same list.  And the requests can all finish: serving
    them one by one is such an interleaving. *)
Theorem overlapping_scans_share_only_the_model_load
    (env : Env) (c : Classifier) (n : nat) (text : jsstring) :
  Healthy env c ->
  (forall schedule,
      let cfg := run env schedule (arrivals n text) in
      loads (globals cfg) <= 1 /\
      (forall k r outcome,
          nth_error (requests cfg) k = Some r -> pc r = Done outcome ->
          outcome = Return (analyzeAll c (matchSentences text)) /\
          callsBy (ByRequest k) (engineCalls (globals cfg))
          = callsOf (matchSentences text)) /\
      (allDone cfg = true ->
       List.length (requestCalls (engineCalls (globals cfg)))
       = n * List.length (callsOf (matchSentences text)))) /\
  allDone (run env (oneByOne n text) (arrivals n text)) = true.
Proof.
  intro Hh. split; [|now apply (oneByOne_completes env c)].
  intros schedule cfg.
  pose proof (run_inv env c text n schedule _ Hh (arrivals_inv c text n))
    as [Hg [Hn [Htags Hreq]]].
  fold cfg in Hg, Hn, Htags, Hreq.
  assert (Hdone : forall k r outcome,
             nth_error (requests cfg) k = Some r -> pc r = Done outcome ->
             outcome = Return (analyzeAll c (matchSentences text)) /\
             callsBy (ByRequest k) (engineCalls (globals cfg))
             = callsOf (matchSentences text)).
  { intros k r outcome Hk Hpc. destruct (Hreq k r Hk) as [_ Hr].
    rewrite Hpc in Hr. destruct outcome as [rs|e]; [|contradiction].
    destruct Hr as [-> Hcalls]. auto. }
  split; [|split; [exact Hdone|]].
  - unfold GlobalsOk in Hg.
    destruct (modelLoadingPromise (globals cfg)) as [| | | | | e | [u|e]];
      try contradiction; destruct Hg as [_ [_ [Hl _]]]; lia.
  - intro Hall. rewrite (requestCalls_count n _ Htags).
    rewrite (map_ext_in _ (fun _ => List.length (callsOf (matchSentences text)))).
    + now rewrite list_sum_const, length_seq.
    + intros k Hk. apply in_seq in Hk.
      destruct (allDone_nth cfg k Hall) as [r [outcome [Hr Hpc]]]; [lia|].
      now rewrite (proj2 (Hdone k r outcome Hr Hpc)).
Qed.

Lemma overlapping_scans_share_only_the_model_load_witness :
  (forall schedule,
      let cfg := run calmEnv schedule (arrivals 2 oneSentence) in
      loads (globals cfg) <= 1 /\
      (forall k r outcome,
          nth_error (requests cfg) k = Some r -> pc r = Done outcome ->
          outcome = Return (analyzeAll steadyClassifier (matchSentences oneSentence)) /\
          callsBy (ByRequest k) (engineCalls (globals cfg))
          = callsOf (matchSentences oneSentence)) /\
      (allDone cfg = true ->
       List.length (requestCalls (engineCalls (globals cfg)))
       = 2 * List.length (callsOf (matchSentences oneSentence)))) /\
  allDone (run calmEnv (oneByOne 2 oneSentence) (arrivals 2 oneSentence)) = true.
Proof.
  apply (overlapping_scans_share_only_the_model_load calmEnv steadyClassifier 2
           oneSentence).
  repeat split; discriminate.
Defined.

End ConcurrencyClaims.

(* ================================================================= *)
(** ** The sentences the regular expression yields *)

Module SentenceFacts.
Import Text Prob Background Scan Shapes SpanFacts.

Lemma noTerminator_app a b :
  noTerminator (a ++ b) = noTerminator a && noTerminator b.
Proof. apply forallb_app. Qed.

Lemma allTerminators_app a b :
  allTerminators (a ++ b) = allTerminators a && allTerminators b.
Proof. apply forallb_app. Qed.

Lemma rev_not_nil {A} (l : list A) : l <> [] -> rev l <> [].
Proof.
  destruct l; [congruence|]. simpl. intros _ H.
  apply app_eq_nil in H. destruct H; discriminate.
Qed.

(** From any phase whose pending characters are in order, the matcher
    delivers matches of the right shape, back to back, and leaves a rest
    without terminator. *)
Lemma scan_shape s : forall ph acc,
  ph <> Seek -> pendingOk ph acc ->
  Forall isSentence (scan ph acc s) /\
  exists rest, rev acc ++ s = List.concat (scan ph acc s) ++ rest /\
               noTerminator rest = true.
Proof.
  induction s as [|c s IH]; intros ph acc Hph Hok.
  - destruct ph; [now elim Hph| |]; simpl.
    + split; [constructor|]. exists (rev acc). rewrite app_nil_r.
      split; [reflexivity|apply Hok].
    + split; [repeat constructor; exact Hok|].
      exists []. now rewrite !app_nil_r.
  - assert (Hshift : forall a, rev a ++ c :: s = rev (c :: a) ++ s)
      by (intro a; simpl; now rewrite <- app_assoc).
    destruct ph; [now elim Hph| |]; simpl scan;
      destruct (isTerminator c) eqn:Ec.
    + (* Body, terminator: the tail begins *)
      rewrite Hshift. apply IH; [discriminate|]. simpl.
      destruct Hok as [Hne Hnt].
      exists (rev acc), [c]. repeat split; auto.
      * now apply rev_not_nil.
      * discriminate.
      * simpl. now rewrite Ec.
    + (* Body, no terminator *)
      rewrite Hshift. apply IH; [discriminate|]. simpl.
      destruct Hok as [Hne Hnt]. split; [discriminate|].
      rewrite noTerminator_app, Hnt. simpl. now rewrite Ec.
    + (* Tail, terminator *)
      rewrite Hshift. apply IH; [discriminate|]. simpl.
      destruct Hok as [body [tail [E [Hb [Ht [Hnb Hat]]]]]].
      exists body, (tail ++ [c]). rewrite E, <- app_assoc.
      repeat split; auto.
      * intro H. apply app_eq_nil in H. destruct H; discriminate.
      * rewrite allTerminators_app, Hat. simpl. now rewrite Ec.
    + (* Tail, no terminator: the match is complete *)
      destruct (IH Body [c]) as [Hall [rest [Hrest Hnt]]];
        [discriminate | simpl; split; [discriminate | now rewrite Ec] |].
      split; [constructor; [exact Hok | exact Hall]|].
      exists rest. split; [|exact Hnt].
      simpl List.concat. simpl in Hrest.
      now rewrite <- app_assoc, <- Hrest.
Qed.

Lemma matchSentences_shape (text : jsstring) :
  Forall isSentence (matchSentences text) /\
  exists lead rest,
    text = lead ++ List.concat (matchSentences text) ++ rest /\
    allTerminators lead = true /\ noTerminator rest = true.
Proof.
  unfold matchSentences. induction text as [|c s IH]; simpl.
  - split; [constructor|]. exists [], []. auto.
  - destruct (isTerminator c) eqn:Ec.
    + destruct IH as [Hall [lead [rest [H [Hl Hr]]]]].
      split; [exact Hall|]. exists (c :: lead), rest.
      simpl. rewrite Ec, Hl. rewrite <- H. auto.
    + destruct (scan_shape s Body [c]) as [Hall [rest [H Hr]]];
        [discriminate | simpl; split; [discriminate | now rewrite Ec] |].
      split; [exact Hall|]. exists [], rest. auto.
Qed.

(** Every match is a sentence. *)
Lemma matchSentences_sentences (text : jsstring) :
  Forall isSentence (matchSentences text).
Proof. apply matchSentences_shape. Qed.

(** The matches lie back to back between the leading terminators and a rest
    without terminator. *)
Lemma matchSentences_tiling (text : jsstring) :
  exists lead rest,
    text = lead ++ List.concat (matchSentences text) ++ rest /\
    allTerminators lead = true /\ noTerminator rest = true.
Proof. apply matchSentences_shape. Qed.

(** X1: the matches of [text.match(/[^.!?]+[.!?]+/g)] cut the text into
    leading terminators, the matches back to back, and a rest without
    terminator; every match is a non-empty stretch without terminator
    followed by a non-empty stretch of terminators. *)
Theorem matchSentences_decomposition (text : jsstring) :
  Forall isSentence (matchSentences text) /\
  exists lead rest,
    text = lead ++ List.concat (matchSentences text) ++ rest /\
    allTerminators lead = true /\ noTerminator rest = true.
Proof.
  split.
  - apply matchSentences_sentences.
  - destruct (matchSentences_tiling text) as [lead [rest H]].
    exists lead, rest. exact H.
Qed.

Lemma scan_seek_terminators lead : forall rest,
  allTerminators lead = true -> scan Seek [] (lead ++ rest) = scan Seek [] rest.
Proof.
  induction lead as [|c l IH]; intros rest H; simpl; auto.
  simpl in H. apply andb_true_iff in H. destruct H as [Hc Hl].
  rewrite Hc. now apply IH.
Qed.

Lemma scan_body_noTerminator rest : forall acc,
  noTerminator rest = true -> scan Body acc rest = [].
Proof.
  induction rest as [|c r IH]; intros acc H; simpl; auto.
  simpl in H. apply andb_true_iff in H. destruct H as [Hc Hr].
  apply negb_true_iff in Hc. rewrite Hc. now apply IH.
Qed.

Lemma concat_sentences_nil l :
  Forall isSentence l -> List.concat l = [] -> l = [].
Proof.
  destruct l as [|s l]; auto. intros H E. exfalso.
  inversion H as [|x y [body [tail [Es [Hb _]]]] _]; subst.
  simpl in E. apply app_eq_nil in E. destruct E as [E _].
  apply app_eq_nil in E. destruct E. contradiction.
Qed.

(** Terminators followed by a stretch without terminator hold no match. *)
Lemma matchSentences_without_match lead rest :
  allTerminators lead = true -> noTerminator rest = true ->
  matchSentences (lead ++ rest) = [].
Proof.
  intros Hl Hr. unfold matchSentences.
  rewrite scan_seek_terminators by exact Hl.
  destruct rest as [|c r]; auto. simpl.
  simpl in Hr. apply andb_true_iff in Hr. destruct Hr as [Hc Hr].
  apply negb_true_iff in Hc. rewrite Hc.
  now apply scan_body_noTerminator.
Qed.

(** X2: a text has no match exactly when it consists of terminators followed
    by a stretch without terminator; so a text without [. ! ?] has none. *)
Theorem matchSentences_nil_iff (text : jsstring) :
  matchSentences text = [] <->
  exists lead rest, text = lead ++ rest /\
                    allTerminators lead = true /\ noTerminator rest = true.
Proof.
  split.
  - intro E. destruct (matchSentences_tiling text) as [lead [rest [H [Hl Hr]]]].
    rewrite E in H. simpl in H. eauto.
  - intros [lead [rest [-> [Hl Hr]]]]. now apply matchSentences_without_match.
Qed.

End SentenceFacts.

(* ================================================================= *)
(** ** Edge cases of one scan *)

Module ScanProperties.
Import Text Prob Background Scan ScanFacts Shapes SentenceFacts Lifetime Demo Samples.
Local Open Scope async_scope.

(** X3: with the model loaded, a text without [. ! ?] (the empty text too) is
    answered with the empty list at once: no classifier call, no read or
    write of the statistics, whatever the storage area would do. *)
Theorem text_without_terminator_is_not_analysed
    (env : Env) (text : jsstring) (w : World) (c : Classifier) :
  modelLoaded w = true -> classifier w = Some c ->
  noTerminator text = true ->
  handleAnalyzeText env text w = (Return [], w).
Proof.
  intros Hl Hc Hn.
  assert (E : matchSentences text = []).
  { apply (matchSentences_without_match [] text); auto. }
  unfold handleAnalyzeText, bind. rewrite Hl. unfold ret at 1.
  rewrite Hc, E. reflexivity.
Qed.

Lemma text_without_terminator_is_not_analysed_witness :
  handleAnalyzeText calmEnv plainText loadedWorld = (Return [], loadedWorld).
Proof.
  apply (text_without_terminator_is_not_analysed calmEnv plainText loadedWorld
           steadyClassifier); reflexivity.
Defined.

(** X4: when the statistics cannot be stored, a scan of a text with at least
    one match throws the storage error although every classifier call has
    been made; the results are not handed out. *)
Theorem scan_is_lost_when_statistics_cannot_be_stored
    (env : Env) (text : jsstring) (w : World) (c : Classifier) :
  modelLoaded w = true -> classifier w = Some c ->
  storageOk env = false -> matchSentences text <> [] ->
  handleAnalyzeText env text w =
  (Throw StorageFailed, addCalls (callsOf (matchSentences text)) w).
Proof.
  intros Hl Hc Hs Hne.
  unfold handleAnalyzeText, bind at 1. rewrite Hl. unfold ret at 1. rewrite Hc.
  destruct (List.length (matchSentences text) =? 0) eqn:E.
  - apply Nat.eqb_eq, length_zero_iff_nil in E. contradiction.
  - unfold bind. rewrite batchLoop_all.
    unfold updateAnalysisStats, bind, storageGet. now rewrite Hs.
Qed.

Lemma scan_is_lost_when_statistics_cannot_be_stored_witness :
  handleAnalyzeText fullDiskEnv oneSentence loadedWorld
  = (Throw StorageFailed, addCalls (callsOf (matchSentences oneSentence)) loadedWorld).
Proof.
  apply (scan_is_lost_when_statistics_cannot_be_stored fullDiskEnv oneSentence
           loadedWorld steadyClassifier); try reflexivity.
  vm_compute. discriminate.
Defined.

Lemma terminator_not_whitespace c :
  isTerminator c = true -> isWhiteSpace c = false.
Proof.
  unfold isTerminator, isWhiteSpace.
  destruct (Nat.eqb_spec (code c) 46), (Nat.eqb_spec (code c) 33),
    (Nat.eqb_spec (code c) 63); simpl; try discriminate; intros _;
    repeat match goal with
           | |- context [?a <=? ?b] => destruct (Nat.leb_spec a b)
           | |- context [?a =? ?b] => destruct (Nat.eqb_spec a b)
           end; simpl; auto; lia.
Qed.

Lemma trim_snoc x c :
  isWhiteSpace c = false -> trim (x ++ [c]) = dropWhile isWhiteSpace x ++ [c].
Proof.
  intro H. unfold trim, trimStart, trimEnd.
  rewrite (KeyFacts.dropWhile_snoc _ _ H).
  rewrite rev_app_distr. simpl. rewrite H. simpl.
  now rewrite rev_involutive.
Qed.

Lemma sentence_ends x :
  isSentence x -> exists y c, x = y ++ [c] /\ isTerminator c = true.
Proof.
  intros [body [tail [-> [_ [Ht [_ Hat]]]]]].
  destruct (exists_last Ht) as [t [c ->]].
  exists (body ++ t), c. rewrite app_assoc. split; auto.
  rewrite allTerminators_app in Hat. apply andb_true_iff in Hat.
  destruct Hat as [_ Hc]. simpl in Hc. now rewrite andb_true_r in Hc.
Qed.

Lemma trim_sentence_ends x :
  isSentence x -> endsWithTerminator (trim x) = true.
Proof.
  intro H. destruct (sentence_ends x H) as [y [c [-> Hc]]].
  rewrite (trim_snoc _ _ (terminator_not_whitespace c Hc)).
  unfold endsWithTerminator. rewrite rev_app_distr. simpl. exact Hc.
Qed.

Lemma trim_noTrailingWs x : noTrailingWs (trim x).
Proof.
  unfold noTrailingWs, trim, trimEnd. rewrite rev_involutive.
  apply KeyFacts.dropWhile_noLeadingWs.
Qed.

Lemma trim_noLeadingWs x : KeyDeriver.noLeadingWs (trim x).
Proof.
  unfold trim. apply KeyFacts.trimEnd_noLeadingWs, KeyFacts.dropWhile_noLeadingWs.
Qed.

Lemma nonNull_length {A} (l : list (option A)) :
  List.length (nonNull l) <= List.length l.
Proof. induction l as [|[a|] l IH]; simpl; lia. Qed.

(** X5: whatever the state and the classifier, the records a scan returns are
    at most as many as the matches of the text, and the text of each is at
    least 15 code units long, neither begins nor ends with white space, and
    ends with one of [. ! ?]. *)
Theorem result_texts_are_trimmed_sentences
    (env : Env) (text : jsstring) (w w' : World) (rs : list AnalysisResult) :
  handleAnalyzeText env text w = (Return rs, w') ->
  List.length rs <= List.length (matchSentences text) /\
  Forall (fun r => 15 <= List.length (Background.text r) /\
                   KeyDeriver.noLeadingWs (Background.text r) /\
                   noTrailingWs (Background.text r) /\
                   endsWithTerminator (Background.text r) = true) rs.
Proof.
  intro Hrun. apply handleAnalyzeText_returns in Hrun. destruct Hrun as [c ->].
  split.
  - unfold analyzeAll. rewrite <- (length_map (scored c)). apply nonNull_length.
  - apply Forall_forall. intros r Hin. apply In_analyzeAll in Hin.
    destruct Hin as [sentence [output [Hs [Hq [_ [Ht _]]]]]]. rewrite Ht.
    pose proof (matchSentences_sentences text) as Hall.
    rewrite Forall_forall in Hall.
    unfold qualifies in Hq. apply negb_true_iff, Nat.ltb_ge in Hq.
    repeat split.
    + exact Hq.
    + apply trim_noLeadingWs.
    + apply trim_noTrailingWs.
    + apply trim_sentence_ends, Hall, Hs.
Qed.

Lemma result_texts_are_trimmed_sentences_witness :
  let rs := analyzeAll steadyClassifier (matchSentences twoSentences) in
  List.length rs <= List.length (matchSentences twoSentences) /\
  Forall (fun r => 15 <= List.length (Background.text r) /\
                   KeyDeriver.noLeadingWs (Background.text r) /\
                   noTrailingWs (Background.text r) /\
                   endsWithTerminator (Background.text r) = true) rs.
Proof.
  apply (result_texts_are_trimmed_sentences calmEnv twoSentences loadedWorld
           (afterScan steadyClassifier twoSentences loadedWorld)).
  reflexivity.
Defined.

End ScanProperties.

(* ================================================================= *)
(** ** What every event of a lifetime keeps *)

Module LifetimeFacts.
Import Text Prob Background Scan ScanFacts Lifetime.
Local Open Scope async_scope.

Lemma loaderBody_outcome env w r w' :
  loaderBody env w = (r, w') ->
  st_analysisStats (storage w') = st_analysisStats (storage w) /\
  match r with
  | Return _ => modelLoaded w' = true /\ classifier w' <> None
  | Throw e => modelLoaded w' = false /\ e <> ModelNotAvailable
  end.
Proof.
  unfold loaderBody, tryCatch, bind, storageSet, modify, callClassifier, ret, throw.
  destruct (importOk env); [destruct (pipeline env) as [c|]|];
    destruct (storageOk env); try destruct (c warmupText);
    simpl; intro H; inversion H; subst; simpl; repeat split;
    try reflexivity; discriminate.
Qed.

Lemma initializeModel_outcome env w r w' :
  GlobalsFit w -> initializeModel env w = (r, w') ->
  GlobalsFit w' /\
  st_analysisStats (storage w') = st_analysisStats (storage w) /\
  match r with
  | Return _ => modelLoaded w' = true /\ classifier w' <> None
  | Throw e => e <> ModelNotAvailable
  end.
Proof.
  unfold GlobalsFit, initializeModel.
  destruct (modelLoadingPromise w) as [[u|e]|] eqn:Ep.
  - intros Hfit H. injection H as <- <-. rewrite Ep. auto.
  - intros Hfit H. injection H as <- <-. rewrite Ep. split; [exact Hfit|].
    split; [reflexivity|apply Hfit].
  - intros Hfit H.
    destruct (loaderBody env (countLoad w)) as [r0 w0] eqn:Eb.
    injection H as <- <-.
    destruct (loaderBody_outcome _ _ _ _ Eb) as [Hst Hr]. simpl.
    split; [|split; [exact Hst|]].
    + destruct r0 as [u|e]; exact Hr.
    + destruct r0 as [u|e]; [exact Hr|apply Hr].
Qed.

Lemma total_fold rs : forall a,
  total (fold_left countResult rs a) = total a + List.length rs.
Proof.
  induction rs as [|r rs IH]; intro a; simpl; [lia|].
  rewrite IH. unfold countResult. destruct (level r); simpl; lia.
Qed.

Lemma balanced_fold rs : forall a,
  balanced a -> balanced (fold_left countResult rs a).
Proof.
  induction rs as [|r rs IH]; intros a H; simpl; auto.
  apply IH. unfold balanced, countResult in *.
  destruct (level r); simpl; lia.
Qed.

Lemma scanBody_effect env text w r w' :
  scanBody env text w = (r, w') ->
  keepsGlobals w w' /\
  (classifier w <> None -> r <> Throw ModelNotAvailable) /\
  total (storedStats w')
  = total (storedStats w) + match r with Return rs => List.length rs | Throw _ => 0 end /\
  (balanced (storedStats w) -> balanced (storedStats w')).
Proof.
  unfold scanBody, keepsGlobals.
  destruct (classifier w) as [c|] eqn:Ec.
  - destruct (List.length (matchSentences text) =? 0).
    + intro H. injection H as <- <-. simpl. repeat split; auto; discriminate.
    + unfold bind. rewrite batchLoop_all.
      unfold updateAnalysisStats, bind, storageGet, storageSet.
      destruct (storageOk env); intro H; injection H as <- <-; simpl.
      * repeat split; auto; try discriminate.
        -- unfold storedStats. simpl. apply total_fold.
        -- unfold storedStats. simpl. apply balanced_fold.
      * repeat split; auto; discriminate.
  - intro H. injection H as <- <-. simpl. repeat split; auto.
Qed.

Lemma GlobalsFit_keeps w w' : keepsGlobals w w' -> GlobalsFit w -> GlobalsFit w'.
Proof.
  unfold keepsGlobals, GlobalsFit. intros [H1 [H2 H3]]. now rewrite H1, H2, H3.
Qed.

Lemma storedStats_eq w w' :
  st_analysisStats (storage w') = st_analysisStats (storage w) ->
  storedStats w' = storedStats w.
Proof. unfold storedStats. now intros ->. Qed.

(** One scan, from a state whose globals fit together. *)
Lemma handleAnalyzeText_effect env text w r w' :
  GlobalsFit w -> handleAnalyzeText env text w = (r, w') ->
  GlobalsFit w' /\ r <> Throw ModelNotAvailable /\
  total (storedStats w')
  = total (storedStats w) + match r with Return rs => List.length rs | Throw _ => 0 end /\
  (balanced (storedStats w) -> balanced (storedStats w')).
Proof.
  intros Hfit. rewrite handleAnalyzeText_unfold. unfold bind at 1.
  destruct (modelLoaded w) eqn:El.
  - unfold ret at 1. intro H.
    destruct (scanBody_effect _ _ _ _ _ H) as [Hk [Hne [Ht Hb]]].
    split; [now apply (GlobalsFit_keeps w)|]. split; [|auto].
    apply Hne. unfold GlobalsFit in Hfit.
    destruct (modelLoadingPromise w) as [[u|e]|].
    + apply Hfit.
    + destruct Hfit as [Hf _]. congruence.
    + congruence.
  - destruct (initializeModel env w) as [[u|e] w1] eqn:Ei;
      destruct (initializeModel_outcome _ _ _ _ Hfit Ei) as [Hfit1 [Hst Hr]].
    + intro H. destruct (scanBody_effect _ _ _ _ _ H) as [Hk [Hne [Ht Hb]]].
      rewrite (storedStats_eq _ _ Hst) in Ht, Hb.
      split; [now apply (GlobalsFit_keeps w1)|]. split; [apply Hne, Hr|auto].
    + intro H. injection H as <- <-.
      rewrite (storedStats_eq _ _ Hst).
      split; [exact Hfit1|]. split; [congruence|]. split; [lia|auto].
Qed.

Lemma handleFeedback_effect env feedback w r w' :
  handleFeedback env feedback w = (r, w') ->
  keepsGlobals w w' /\ st_analysisStats (storage w') = st_analysisStats (storage w).
Proof.
  unfold handleFeedback, bind, storageGet, storageSet, sendFeedbackToBackend,
    keepsGlobals, modify, ret.
  destruct (storageOk env); [|intro H; injection H as <- <-; auto].
  destruct (10 <=? _); [destruct (fetchResult env) as [|[|]]|];
    intro H; injection H as <- <-; simpl; auto.
Qed.

(** What every event keeps. *)
Lemma react_effect w e response w' :
  GlobalsFit w -> react w e = (response, w') ->
  GlobalsFit w' /\
  response <> Some (Failed ModelNotAvailable) /\
  total (storedStats w')
  = total (storedStats w) + match response with Some r => resultCount r | None => 0 end /\
  (balanced (storedStats w) -> balanced (storedStats w')).
Proof.
  intro Hfit. destruct e as [env fromTab request|env]; simpl.
  - unfold onMessage. destruct fromTab; simpl.
    + destruct request as [text|feedback| |].
      * destruct (handleAnalyzeText env text w) as [r w1] eqn:E.
        destruct (handleAnalyzeText_effect _ _ _ _ _ Hfit E) as [H1 [H2 [H3 H4]]].
        destruct r as [rs|err]; intro H; injection H as <- <-; simpl;
          (split; [exact H1|]); (split; [congruence|]); auto.
      * destruct (handleFeedback env feedback w) as [r w1] eqn:E.
        destruct (handleFeedback_effect _ _ _ _ _ E) as [Hk Hst].
        rewrite <- (storedStats_eq _ _ Hst).
        destruct r as [u|err]; intro H; injection H as <- <-; simpl;
          (split; [now apply (GlobalsFit_keeps w)|]);
          (split; [try discriminate|]); try (split; [lia|auto]).
        unfold handleFeedback, bind, storageGet, storageSet,
          sendFeedbackToBackend, modify, ret in E.
        destruct (storageOk env); [|injection E as E _; congruence].
        destruct (10 <=? _); [destruct (fetchResult env) as [|[|]]|];
          discriminate E.
      * intro H. injection H as <- <-. simpl.
        split; [exact Hfit|]. split; [discriminate|]. split; [lia|auto].
      * intro H. injection H as <- <-. simpl.
        split; [exact Hfit|]. split; [discriminate|]. split; [lia|auto].
    + intro H. injection H as <- <-. simpl.
      split; [exact Hfit|]. split; [discriminate|]. split; [lia|auto].
  - intro H. injection H as <- <-.
    destruct (initializeModel env w) as [r w1] eqn:Ei.
    destruct (initializeModel_outcome _ _ _ _ Hfit Ei) as [Hfit1 [Hst _]].
    simpl. rewrite (storedStats_eq _ _ Hst).
    split; [exact Hfit1|]. split; [discriminate|]. split; [lia|auto].
Qed.

Lemma runEvents_effect events : forall w responses w',
  GlobalsFit w -> runEvents events w = (responses, w') ->
  GlobalsFit w' /\
  ~ In (Failed ModelNotAvailable) responses /\
  total (storedStats w')
  = total (storedStats w) + list_sum (map resultCount responses) /\
  (balanced (storedStats w) -> balanced (storedStats w')).
Proof.
  induction events as [|e events IH]; intros w responses w' Hfit; simpl.
  - intro H. injection H as <- <-. simpl. repeat split; auto.
  - destruct (react w e) as [response w1] eqn:E1.
    destruct (runEvents events w1) as [responses2 w2] eqn:E2.
    intro H. injection H as <- <-.
    destruct (react_effect _ _ _ _ Hfit E1) as [Hfit1 [Hne1 [Ht1 Hb1]]].
    destruct (IH _ _ _ Hfit1 E2) as [Hfit2 [Hne2 [Ht2 Hb2]]].
    split; [exact Hfit2|]. split; [|split].
    + destruct response as [r|]; [|exact Hne2].
      intros [Hin|Hin]; [congruence|contradiction].
    + rewrite Ht2, Ht1. destruct response as [r|]; simpl; lia.
    + auto.
Qed.

End LifetimeFacts.

(* ================================================================= *)
(** ** The model and the statistics over a lifetime *)

Module LifetimeProperties.
Import Text Prob Background Scan ScanFacts Lifetime LifetimeFacts.

(** X6: over a lifetime of the worker that handles one event at a time, the
    error 'Model not available' is never thrown and never answered: whenever
    [modelLoaded] is true the classifier is there, and a scan that has to
    wait for the model either gets it or fails with the error of the load. *)
Theorem model_not_available_is_never_thrown (events : list Event) :
  let w := snd (runEvents events initialWorld) in
  ~ In (Failed ModelNotAvailable) (fst (runEvents events initialWorld)) /\
  (modelLoaded w = true -> classifier w <> None) /\
  forall env text, fst (handleAnalyzeText env text w) <> Throw ModelNotAvailable.
Proof.
  intro w. unfold w. clear w.
  destruct (runEvents events initialWorld) as [responses w] eqn:E.
  assert (Hfit0 : GlobalsFit initialWorld) by reflexivity.
  destruct (runEvents_effect _ _ _ _ Hfit0 E) as [Hfit [Hne _]].
  simpl. split; [exact Hne|]. split.
  - intro Hl. unfold GlobalsFit in Hfit.
    destruct (modelLoadingPromise w) as [[u|e]|].
    + apply Hfit.
    + destruct Hfit as [Hf _]. congruence.
    + congruence.
  - intros env text.
    destruct (handleAnalyzeText env text w) as [r w1] eqn:Er.
    apply (handleAnalyzeText_effect _ _ _ _ _ Hfit Er).
Qed.

(** X7: over a lifetime of the worker that handles one event at a time and
    starts with an empty storage area, [analysisStats.total] is the number of
    result records handed to callers so far, and it is the sum of the three
    level counters. *)
Theorem statistics_count_every_returned_result (events : list Event) :
  let responses := fst (runEvents events initialWorld) in
  let a := storedStats (snd (runEvents events initialWorld)) in
  total a = list_sum (map resultCount responses) /\
  total a = highCount a + mediumCount a + lowCount a.
Proof.
  destruct (runEvents events initialWorld) as [responses w] eqn:E.
  assert (Hfit0 : GlobalsFit initialWorld) by reflexivity.
  destruct (runEvents_effect _ _ _ _ Hfit0 E) as [_ [_ [Ht Hb]]].
  simpl. split; [exact Ht|]. apply Hb. reflexivity.
Qed.

End LifetimeProperties.

(* ================================================================= *)
(** ** The probability heuristic: NaN, spaces and letter case *)

Module ProbProperties.
Import Text Prob FloatFacts ProbFacts Letters.

Lemma is_nan_true x : is_nan x = true -> Prim2SF x = S754_nan.
Proof.
  intro H. destruct (Prim2SF x) eqn:E; auto;
    assert (Hn : is_nan x = false)
      by (apply is_nan_spec; unfold notNaN; rewrite E; discriminate);
    congruence.
Qed.

Lemma is_nan_of_spec x : Prim2SF x = S754_nan -> is_nan x = true.
Proof.
  intro E. destruct (is_nan x) eqn:H; auto.
  apply is_nan_spec in H. now elim H.
Qed.

(** X8: a model score that is NaN goes through the clamp: the probability is
    NaN for every text, and the level given to NaN is 'low'. *)
Theorem nan_score_gives_nan_probability (text : jsstring) (s : float) :
  is_nan s = true ->
  calculateAIProbability text s = nan /\
  levelOf (calculateAIProbability text s) = low.
Proof.
  intro Hs.
  assert (Hsum : is_nan (heuristic text + s * 0.2)%float = true).
  { apply is_nan_of_spec. rewrite add_spec, mul_spec, (is_nan_true _ Hs).
    simpl. destruct (Prim2SF (heuristic text)); reflexivity. }
  assert (E : calculateAIProbability text s = nan).
  { unfold calculateAIProbability, Math_max. rewrite Hsum. reflexivity. }
  rewrite E. split; reflexivity.
Qed.

Lemma nan_score_gives_nan_probability_witness :
  calculateAIProbability (str "Thus we leverage it.") nan = nan /\
  levelOf (calculateAIProbability (str "Thus we leverage it.") nan) = low.
Proof.
  apply (nan_score_gives_nan_probability (str "Thus we leverage it.") nan).
  reflexivity.
Defined.

(** *** Letter case *)

Lemma every_code_unit (P : ascii -> bool) :
  forallb P allCodeUnits = true -> forall c, P c = true.
Proof.
  intros H c. rewrite forallb_forall in H. apply H.
  unfold allCodeUnits. rewrite <- (ascii_nat_embedding c).
  apply in_map, in_seq. pose proof (nat_ascii_bounded c). lia.
Qed.

Lemma lowerChar_space c : (code (lowerChar c) =? 32) = (code c =? 32).
Proof.
  apply Bool.eqb_prop.
  apply (every_code_unit
           (fun c => Bool.eqb (code (lowerChar c) =? 32) (code c =? 32))).
  vm_compute. reflexivity.
Qed.

Lemma lowerChar_word c : isWordChar (lowerChar c) = isWordChar c.
Proof.
  apply Bool.eqb_prop.
  apply (every_code_unit
           (fun c => Bool.eqb (isWordChar (lowerChar c)) (isWordChar c))).
  vm_compute. reflexivity.
Qed.

Lemma lowerChar_fold a b :
  isAscii a = true ->
  Ascii.eqb (foldChar a) (foldChar (lowerChar b)) = Ascii.eqb (foldChar a) (foldChar b).
Proof.
  intro Ha. apply Bool.eqb_prop.
  pose proof (every_code_unit
    (fun a => implb (isAscii a)
       (forallb (fun b => Bool.eqb (Ascii.eqb (foldChar a) (foldChar (lowerChar b)))
                                   (Ascii.eqb (foldChar a) (foldChar b)))
                allCodeUnits))) as H.
  assert (Hall : forall a, implb (isAscii a)
       (forallb (fun b => Bool.eqb (Ascii.eqb (foldChar a) (foldChar (lowerChar b)))
                                   (Ascii.eqb (foldChar a) (foldChar b)))
                allCodeUnits) = true) by (apply H; vm_compute; reflexivity).
  specialize (Hall a). rewrite Ha in Hall. unfold implb in Hall.
  exact (every_code_unit _ Hall b).
Qed.

Lemma startsWithCI_lower w : forall s,
  forallb isAscii w = true ->
  startsWithCI w (toLowerCase s) = startsWithCI w s.
Proof.
  induction w as [|a w IH]; intros s H; [reflexivity|].
  simpl in H. apply andb_true_iff in H. destruct H as [Ha Hw].
  destruct s as [|b s]; [reflexivity|]. simpl.
  now rewrite (lowerChar_fold a b Ha), (IH s Hw).
Qed.

Lemma boundaryAfter_lower w s :
  boundaryAfter w (toLowerCase s) = boundaryAfter w s.
Proof.
  unfold boundaryAfter, toLowerCase. rewrite skipn_map.
  destruct (skipn (List.length w) s) as [|c r]; simpl; auto.
  now rewrite lowerChar_word.
Qed.

Lemma formalAt_lower prev s : formalAt prev (toLowerCase s) = formalAt prev s.
Proof.
  unfold formalAt. f_equal.
  assert (H : Forall (fun w => forallb isAscii w = true) formalWords)
    by (repeat constructor).
  induction H as [|w ws Hw _ IH]; simpl; auto.
  now rewrite (startsWithCI_lower w s Hw), boundaryAfter_lower, IH.
Qed.

Lemma formalFrom_lower s : forall prev,
  formalFrom prev (toLowerCase s) = formalFrom prev s.
Proof.
  induction s as [|c s IH]; intro prev.
  - reflexivity.
  - change (toLowerCase (c :: s)) with (lowerChar c :: toLowerCase s).
    cbn [formalFrom].
    change (lowerChar c :: toLowerCase s) with (toLowerCase (c :: s)).
    now rewrite formalAt_lower, lowerChar_word, IH.
Qed.

Lemma splitSpace_length s : forall cur,
  List.length (splitSpace cur s) = S (spaces s).
Proof.
  unfold spaces. induction s as [|c s IH]; intro cur; simpl; auto.
  destruct (ascii_dec c " ") as [->|Hne].
  - simpl. now rewrite IH.
  - destruct (Nat.eqb_spec (code c) 32) as [E|_]; [|apply IH].
    exfalso. apply Hne. rewrite <- (ascii_nat_embedding c).
    unfold code in E. now rewrite E.
Qed.

Lemma spaces_lower s : spaces (toLowerCase s) = spaces s.
Proof.
  unfold spaces. induction s as [|c s IH]; simpl; auto.
  pose proof (lowerChar_space c) as H.
  destruct (ascii_dec (lowerChar c) " ") as [E|Hne], (ascii_dec c " ") as [E'|Hne'];
    auto.
  - rewrite E in H. subst. simpl in H.
    destruct (Nat.eqb_spec (code c) 32) as [Ec|Ec]; [|discriminate].
    exfalso. apply Hne'. rewrite <- (ascii_nat_embedding c).
    unfold code in Ec. now rewrite Ec.
  - subst c. now elim Hne.
Qed.

(** X9: the bonus for a long sentence depends on the SPACE code units alone:
    [text.split(' ')] has one piece more than the text has spaces, so the
    bonus is given exactly to the texts with at least 25 spaces, however many
    words lie between them. *)
Theorem long_sentence_bonus_counts_spaces (text : jsstring) :
  List.length (split text) = S (spaces text) /\
  (25 <? List.length (split text))%nat = (25 <=? spaces text)%nat.
Proof.
  unfold split. rewrite splitSpace_length. split; reflexivity.
Qed.

Lemma lowerChar_asciiLower c : lowerChar (asciiLower c) = lowerChar c.
Proof.
  apply Ascii.eqb_eq.
  apply (every_code_unit
           (fun c => Ascii.eqb (lowerChar (asciiLower c)) (lowerChar c))).
  vm_compute. reflexivity.
Qed.

Lemma toLowerCase_asciiLower t : toLowerCase (map asciiLower t) = toLowerCase t.
Proof.
  unfold toLowerCase. rewrite map_map. apply map_ext. apply lowerChar_asciiLower.
Qed.

(** X10: the probability does not depend on the case of the ASCII letters: two
    texts that are equal once [A] to [Z] are replaced by [a] to [z] get the
    same probability from the same model score; the keywords, the pattern of
    the formal connectives and the count of the pieces all ignore that
    case. *)
Theorem probability_ignores_ascii_letter_case (t1 t2 : jsstring) (s : float) :
  map asciiLower t1 = map asciiLower t2 ->
  calculateAIProbability t1 s = calculateAIProbability t2 s.
Proof.
  intro H.
  assert (E : toLowerCase t1 = toLowerCase t2).
  { rewrite <- (toLowerCase_asciiLower t1), <- (toLowerCase_asciiLower t2).
    now rewrite H. }
  assert (Hf : testFormal t1 = testFormal t2).
  { unfold testFormal.
    rewrite <- (formalFrom_lower t1), <- (formalFrom_lower t2). now rewrite E. }
  assert (Hl : List.length (split t1) = List.length (split t2)).
  { unfold split. rewrite !splitSpace_length.
    rewrite <- (spaces_lower t1), <- (spaces_lower t2). now rewrite E. }
  unfold calculateAIProbability, heuristic. now rewrite E, Hf, Hl.
Qed.

Lemma probability_ignores_ascii_letter_case_witness :
  calculateAIProbability (str "THUS We Leverage IT.") 0.5%float
  = calculateAIProbability (str "thus we leverage it.") 0.5%float.
Proof.
  apply (probability_ignores_ascii_letter_case (str "THUS We Leverage IT.")
           (str "thus we leverage it.") 0.5%float).
  reflexivity.
Defined.

End ProbProperties.

(* ================================================================= *)
(** ** What every event keeps of the feedback *)

Module FeedbackFacts.
Import Text Prob Background Scan ScanFacts Lifetime FeedbackLife.
Local Open Scope async_scope.

Lemma loaderBody_keepsFeedback env w :
  keepsFeedback w (snd (loaderBody env w)).
Proof.
  unfold keepsFeedback, loaderBody, tryCatch, bind, storageSet, modify,
    callClassifier, ret, throw.
  destruct (importOk env); [destruct (pipeline env) as [c|]|];
    destruct (storageOk env); try destruct (c warmupText);
    simpl; auto.
Qed.

Lemma initializeModel_keepsFeedback env w :
  keepsFeedback w (snd (initializeModel env w)).
Proof.
  unfold initializeModel. destruct (modelLoadingPromise w).
  - split; reflexivity.
  - pose proof (loaderBody_keepsFeedback env (countLoad w)) as H.
    destruct (loaderBody env (countLoad w)) as [r w1]. exact H.
Qed.

Lemma scanBody_keepsFeedback env text w :
  keepsFeedback w (snd (scanBody env text w)).
Proof.
  unfold scanBody, keepsFeedback.
  destruct (classifier w) as [c|]; [|simpl; auto].
  destruct (List.length (matchSentences text) =? 0); [simpl; auto|].
  unfold bind. rewrite batchLoop_all.
  unfold updateAnalysisStats, bind, storageGet, storageSet.
  destruct (storageOk env); simpl; auto.
Qed.

Lemma handleAnalyzeText_keepsFeedback env text w :
  keepsFeedback w (snd (handleAnalyzeText env text w)).
Proof.
  rewrite handleAnalyzeText_unfold. unfold bind at 1.
  destruct (modelLoaded w).
  - unfold ret at 1. apply scanBody_keepsFeedback.
  - pose proof (initializeModel_keepsFeedback env w) as H1.
    destruct (initializeModel env w) as [[u|e] w1]; [|exact H1].
    pose proof (scanBody_keepsFeedback env text w1) as H2.
    unfold keepsFeedback in *. simpl in H1.
    destruct H1 as [E1 E2], H2 as [E3 E4]. split; congruence.
Qed.

Lemma FeedbackOk_keeps exact n w w' :
  keepsFeedback w w' -> FeedbackOk exact n w -> FeedbackOk exact n w'.
Proof.
  unfold keepsFeedback, FeedbackOk, storedFeedback. intros [-> ->]. auto.
Qed.

Lemma FeedbackOk_relax exact n w : FeedbackOk exact n w -> FeedbackOk false n w.
Proof.
  unfold FeedbackOk. intros [H1 [H2 [H3 _]]].
  repeat split; auto. discriminate.
Qed.

Lemma handleFeedback_FeedbackOk env feedback w exact n :
  FeedbackOk exact n w ->
  let ok := match fetchResult env with FetchResponse true => true | _ => false end in
  match handleFeedback env feedback w with
  | (Return _, w') => FeedbackOk (exact && ok) (S n) w'
  | (Throw _, w') => FeedbackOk exact n w'
  end.
Proof.
  unfold FeedbackOk, handleFeedback, bind, storageGet, storageSet,
    sendFeedbackToBackend, modify, ret, storedFeedback.
  intros [Hlt [Hall [Hle Heq]]].
  destruct (storageOk env); [|simpl; auto].
  cbn [storage setStorage storeFeedback st_feedbackData].
  destruct (st_feedbackData (storage w)) as [l|]; cbn [List.length] in *.
  - rewrite length_app. cbn [List.length].
    destruct (Nat.leb_spec 10 (List.length l + 1)) as [Hge|Hsmall].
    + assert (El : List.length l = 9) by lia.
      destruct (fetchResult env) as [|[|]]; simpl;
        rewrite ?length_app, ?andb_true_r, ?andb_false_r; simpl.
      * repeat split; auto; try lia; try discriminate.
      * repeat split; try lia.
        -- apply Forall_app. split; auto. constructor; auto.
           rewrite length_map, length_app. simpl. lia.
        -- intro He. specialize (Heq He). lia.
      * repeat split; auto; try lia; try discriminate.
    + simpl. rewrite length_app. simpl.
      repeat split; auto; try lia.
      intro He. apply andb_true_iff in He. destruct He as [He _].
      specialize (Heq He). lia.
  - simpl. repeat split; auto; try lia.
    intro He. apply andb_true_iff in He. destruct He as [He _].
    specialize (Heq He). lia.
Qed.

Lemma react_FeedbackOk w e exact n :
  FeedbackOk exact n w ->
  FeedbackOk (exact && backendOk e)
             (n + match fst (react w e) with Some r => accepted r | None => 0 end)
             (snd (react w e)).
Proof.
  intro H.
  assert (Hsame : forall w', keepsFeedback w w' ->
            FeedbackOk (exact && backendOk e) (n + 0) w').
  { intros w' Hk. rewrite Nat.add_0_r. apply (FeedbackOk_keeps _ _ w); auto.
    destruct (backendOk e); [now rewrite andb_true_r|].
    rewrite andb_false_r. now apply FeedbackOk_relax with exact. }
  destruct e as [env fromTab request|env]; simpl.
  - unfold onMessage. destruct fromTab; simpl.
    + destruct request as [text|feedback| |].
      * pose proof (handleAnalyzeText_keepsFeedback env text w) as Hk.
        destruct (handleAnalyzeText env text w) as [[rs|err] w1]; simpl;
          now apply Hsame.
      * pose proof (handleFeedback_FeedbackOk env feedback w exact n H) as Hf.
        cbv zeta in Hf.
        destruct (handleFeedback env feedback w) as [[u|err] w1]; simpl.
        -- replace (n + 1) with (S n) by lia. exact Hf.
        -- rewrite Nat.add_0_r.
           destruct (match fetchResult env with
                     | FetchResponse true => true | _ => false end);
             [now rewrite andb_true_r|].
           rewrite andb_false_r. now apply FeedbackOk_relax with exact.
      * apply Hsame. split; reflexivity.
      * apply Hsame. split; reflexivity.
    + apply Hsame. split; reflexivity.
  - apply Hsame. apply initializeModel_keepsFeedback.
Qed.

Lemma runEvents_FeedbackOk events : forall w exact n,
  FeedbackOk exact n w ->
  FeedbackOk (exact && forallb backendOk events)
             (n + list_sum (map accepted (fst (runEvents events w))))
             (snd (runEvents events w)).
Proof.
  induction events as [|e events IH]; intros w exact n H; simpl.
  - now rewrite andb_true_r, Nat.add_0_r.
  - pose proof (react_FeedbackOk w e exact n H) as H1.
    destruct (react w e) as [response w1]. simpl in H1.
    specialize (IH w1 _ _ H1).
    destruct (runEvents events w1) as [responses w2]. simpl in IH. simpl.
    rewrite andb_assoc.
    destruct response as [r|]; simpl; [|now rewrite Nat.add_0_r in IH].
    now rewrite Nat.add_assoc.
Qed.

End FeedbackFacts.

(* ================================================================= *)
(** ** Feedback batches over a lifetime *)

Module FeedbackProperties.
Import Text Prob Background Scan Lifetime FeedbackLife FeedbackFacts Demo Samples.

(** X11: over a lifetime of the worker that handles one event at a time and
    whose storage area works during every feedback submission, fewer than ten
    feedback items are left in the storage area after each event, every batch
    posted to the backend holds exactly ten items, and the items stored and
    posted never outnumber the submissions accepted. *)
Theorem feedback_is_posted_in_batches_of_ten (events : list Event) :
  forallb storageWorks events = true ->
  let responses := fst (runEvents events initialWorld) in
  let w := snd (runEvents events initialWorld) in
  List.length (storedFeedback w) < 10 /\
  Forall (fun batch => List.length batch = 10) (delivered w) /\
  List.length (storedFeedback w) + 10 * List.length (delivered w)
  <= list_sum (map accepted responses).
Proof.
  intros _.
  assert (H0 : FeedbackOk true 0 initialWorld).
  { unfold FeedbackOk. simpl. repeat split; auto; lia. }
  pose proof (runEvents_FeedbackOk events _ _ _ H0) as [H1 [H2 [H3 _]]].
  simpl. auto.
Qed.

Lemma feedback_is_posted_in_batches_of_ten_witness :
  let responses := fst (runEvents busyDay initialWorld) in
  let w := snd (runEvents busyDay initialWorld) in
  List.length (storedFeedback w) < 10 /\
  Forall (fun batch => List.length batch = 10) (delivered w) /\
  List.length (storedFeedback w) + 10 * List.length (delivered w)
  <= list_sum (map accepted responses).
Proof.
  apply (feedback_is_posted_in_batches_of_ten busyDay). reflexivity.
Defined.

(** X12: when, besides, the backend answers [ok] during every event, no
    accepted feedback item is lost: each one is in the storage area or in a
    posted batch. *)
Theorem every_accepted_feedback_is_stored_or_posted (events : list Event) :
  forallb storageWorks events = true ->
  forallb backendOk events = true ->
  let responses := fst (runEvents events initialWorld) in
  let w := snd (runEvents events initialWorld) in
  List.length (storedFeedback w) + 10 * List.length (delivered w)
  = list_sum (map accepted responses).
Proof.
  intros _ Hok.
  assert (H0 : FeedbackOk true 0 initialWorld).
  { unfold FeedbackOk. simpl. repeat split; auto; lia. }
  pose proof (runEvents_FeedbackOk events _ _ _ H0) as [_ [_ [_ H4]]].
  simpl. apply H4. now rewrite Hok.
Qed.

Lemma every_accepted_feedback_is_stored_or_posted_witness :
  let responses := fst (runEvents elevenSubmissions initialWorld) in
  let w := snd (runEvents elevenSubmissions initialWorld) in
  List.length (storedFeedback w) + 10 * List.length (delivered w)
  = list_sum (map accepted responses).
Proof.
  apply (every_accepted_feedback_is_stored_or_posted elevenSubmissions);
    reflexivity.
Defined.

End FeedbackProperties.

(* ================================================================= *)
(** ** Invariants of overlapping requests under any outside *)

Module OverlapFacts.
Import Text Prob Background Scan Concurrent Invariants ConcurrentFacts Overlap.

Lemma Forall_setNth {A} (P : A -> Prop) (a : A) l : forall k,
  Forall P l -> P a -> Forall P (setNth k a l).
Proof.
  induction l as [|b l IH]; intros k Hl Ha; [destruct k; exact Hl|].
  inversion Hl; subst. destruct k; simpl; constructor; auto.
Qed.

Lemma startLoader_LoadOk g : LoadOk g -> LoadOk (startLoader g).
Proof.
  unfold LoadOk, startLoader.
  destruct (modelLoadingPromise g) eqn:E; try (rewrite E; auto).
  simpl. intros [H0 H]. rewrite H0. auto.
Qed.

Lemma stepLoader_LoadOk env g : LoadOk g -> LoadOk (stepLoader env g).
Proof.
  unfold LoadOk, stepLoader.
  destruct (modelLoadingPromise g) as [| | | | | e | [u|e]] eqn:E;
    try (rewrite E; auto; fail); intros [H1 H2].
  - destruct (importOk env); simpl; split; auto; try discriminate.
    split; auto. discriminate.
  - destruct (pipeline env); simpl; split; auto; try discriminate.
    split; auto. discriminate.
  - destruct (storageOk env); simpl; split; auto; try discriminate.
    split; auto. discriminate.
  - destruct (classifier g) as [c|] eqn:Ec.
    + destruct (c warmupText); simpl; rewrite ?Ec; split; auto;
        try discriminate; split; auto; discriminate.
    + simpl. rewrite Ec. split; [split; auto|]; discriminate.
  - destruct (storageOk env); simpl; split; auto; try tauto.
    split; [tauto|discriminate].
Qed.

Lemma issueBatch_LoadOk k sentences i results g :
  LoadOk g ->
  LoadOk (snd (issueBatch k sentences i results g)) /\
  fst (issueBatch k sentences i results g) <> Done (Throw ModelNotAvailable).
Proof.
  unfold issueBatch. intro H.
  destruct (classifier g) eqn:Ec; simpl; split; auto; discriminate.
Qed.

Lemma startScan_LoadOk k text g :
  LoadOk g -> classifier g <> None ->
  LoadOk (snd (startScan k text g)) /\
  fst (startScan k text g) <> Done (Throw ModelNotAvailable).
Proof.
  unfold startScan. intros H Hc.
  destruct (classifier g) eqn:Ec; [|now elim Hc].
  destruct (List.length (matchSentences text) =? 0).
  - simpl. split; [exact H|discriminate].
  - now apply issueBatch_LoadOk.
Qed.

Lemma stepRequest_LoadOk env k r g :
  LoadOk g -> hasModelOrWaits r ->
  LoadOk (snd (stepRequest env k r g)) /\
  fst (stepRequest env k r g) <> Done (Throw ModelNotAvailable).
Proof.
  unfold hasModelOrWaits, stepRequest. intros H Hr.
  destruct (pc r) as [| |i results pending|results|results stats|outcome].
  - destruct (modelLoaded g) eqn:El.
    + apply startScan_LoadOk; auto. now apply H.
    + simpl. split; [now apply startLoader_LoadOk|discriminate].
  - pose proof H as [Hp _].
    destruct (modelLoadingPromise g) as [| | | | | e | [u|e]];
      try (simpl; split; [exact H|discriminate]).
    + apply startScan_LoadOk; auto. apply Hp.
    + simpl. split; [exact H|]. intro E. injection E as ->. now apply Hp.
  - destruct (i + batchSize <? _).
    + now apply issueBatch_LoadOk.
    + simpl. split; [exact H|discriminate].
  - destruct (storageOk env); simpl; split; auto; discriminate.
  - destruct (storageOk env); simpl; split; auto; discriminate.
  - simpl. split; auto.
Qed.

Lemma step_LoadOk env cfg t :
  LoadOk (globals cfg) /\ Forall hasModelOrWaits (requests cfg) ->
  LoadOk (globals (step env cfg t)) /\
  Forall hasModelOrWaits (requests (step env cfg t)).
Proof.
  intros [Hg Hr]. destruct t as [| |k]; simpl.
  - split; [now apply startLoader_LoadOk|exact Hr].
  - split; [now apply stepLoader_LoadOk|exact Hr].
  - destruct (nth_error (requests cfg) k) as [r|] eqn:Ek; [|auto].
    assert (Hk : hasModelOrWaits r).
    { rewrite Forall_forall in Hr. apply Hr. eapply nth_error_In; eauto. }
    destruct (stepRequest_LoadOk env k r (globals cfg) Hg Hk) as [Hg' Hpc].
    destruct (stepRequest env k r (globals cfg)) as [pc' g']. simpl in *.
    split; [exact Hg'|]. apply Forall_setNth; auto.
Qed.

Lemma run_LoadOk env schedule : forall cfg,
  LoadOk (globals cfg) /\ Forall hasModelOrWaits (requests cfg) ->
  LoadOk (globals (run env schedule cfg)) /\
  Forall hasModelOrWaits (requests (run env schedule cfg)).
Proof.
  induction schedule as [|t schedule IH]; intros cfg H; simpl; auto.
  apply IH. now apply step_LoadOk.
Qed.

Lemma failedWithLoad_settled g g' r :
  (forall e, modelLoadingPromise g = Settled (Throw e) ->
             modelLoadingPromise g' = Settled (Throw e)) ->
  failedWithLoad g r -> failedWithLoad g' r.
Proof.
  unfold failedWithLoad. intros H.
  destruct (pc r) as [| | | | |[rs|e]]; auto.
Qed.

Lemma step_LoadFails env cfg t :
  importOk env = false \/ pipeline env = None ->
  LoadFails env (globals cfg) /\ Forall (failedWithLoad (globals cfg)) (requests cfg) ->
  LoadFails env (globals (step env cfg t)) /\
  Forall (failedWithLoad (globals (step env cfg t))) (requests (step env cfg t)).
Proof.
  intros Henv [[Hc [Hl [Hlog Hp]]] Hr].
  destruct t as [| |k]; simpl.
  - split.
    + unfold LoadFails, startLoader.
      destruct (modelLoadingPromise (globals cfg)) eqn:E; rewrite ?E; simpl; auto.
    + eapply Forall_impl; [|exact Hr]. intro r. apply failedWithLoad_settled.
      intros e E. unfold startLoader. now rewrite E.
  - split.
    + unfold LoadFails, stepLoader.
      destruct (modelLoadingPromise (globals cfg)) as [| | | | | e | [u|e]] eqn:E;
        rewrite ?E; simpl; auto; try contradiction.
      * destruct (importOk env) eqn:Ei; simpl; auto.
      * destruct Henv as [Hi|Hpipe]; [congruence|]. rewrite Hpipe. simpl. auto.
      * destruct (storageOk env); simpl; auto.
    + eapply Forall_impl; [|exact Hr]. intro r. apply failedWithLoad_settled.
      intros e E. unfold stepLoader. now rewrite E.
  - destruct (nth_error (requests cfg) k) as [r|] eqn:Ek;
      [|split; [repeat split; auto|exact Hr]].
    assert (Hk : failedWithLoad (globals cfg) r).
    { rewrite Forall_forall in Hr. apply Hr. eapply nth_error_In; eauto. }
    unfold stepRequest. unfold failedWithLoad in Hk.
    destruct (pc r) as [| | | | |[rs|e]] eqn:Epc; try contradiction.
    + rewrite Hl. simpl. split.
      * unfold LoadFails, startLoader.
        destruct (modelLoadingPromise (globals cfg)) eqn:E; rewrite ?E; simpl; auto.
      * apply Forall_setNth; [|exact I].
        eapply Forall_impl; [|exact Hr]. intro r0. apply failedWithLoad_settled.
        intros e E. unfold startLoader. now rewrite E.
    + destruct (modelLoadingPromise (globals cfg)) as [| | | | | e | [u|e]] eqn:E;
        try contradiction; simpl;
        (split; [unfold LoadFails; rewrite E; auto|]);
        apply Forall_setNth; auto; exact I.
    + simpl. split; [unfold LoadFails; auto|].
      apply Forall_setNth; auto.
Qed.

Lemma run_LoadFails env schedule : forall cfg,
  importOk env = false \/ pipeline env = None ->
  LoadFails env (globals cfg) /\ Forall (failedWithLoad (globals cfg)) (requests cfg) ->
  LoadFails env (globals (run env schedule cfg)) /\
  Forall (failedWithLoad (globals (run env schedule cfg)))
         (requests (run env schedule cfg)).
Proof.
  induction schedule as [|t schedule IH]; intros cfg Henv H; simpl; auto.
  apply IH; auto. now apply step_LoadFails.
Qed.

Lemma startLoader_FlagOk g : FlagOk g -> FlagOk (startLoader g).
Proof.
  unfold FlagOk, startLoader.
  destruct (modelLoadingPromise g) eqn:E; try (rewrite E; auto).
  simpl. intros [H0 H]. rewrite H0. auto.
Qed.

Lemma stepLoader_FlagOk env g : FlagOk g -> FlagOk (stepLoader env g).
Proof.
  unfold FlagOk, stepLoader.
  destruct (modelLoadingPromise g) as [| | | | | e | [u|e]] eqn:E;
    try (rewrite E; auto; fail); intros [H1 H2].
  - destruct (importOk env); simpl; auto.
  - destruct (pipeline env); simpl; auto.
  - destruct (storageOk env); simpl; auto.
  - destruct (classifier g) as [c|]; [destruct (c warmupText)|]; simpl; auto.
  - destruct (storageOk env); simpl; auto.
Qed.

Lemma issueBatch_FlagOk k sentences i results g :
  FlagOk g -> FlagOk (snd (issueBatch k sentences i results g)).
Proof. unfold issueBatch. destruct (classifier g); simpl; auto. Qed.

Lemma startScan_FlagOk k text g : FlagOk g -> FlagOk (snd (startScan k text g)).
Proof.
  unfold startScan. intro H. destruct (classifier g) eqn:Ec; [|exact H].
  destruct (List.length (matchSentences text) =? 0); [exact H|].
  now apply issueBatch_FlagOk.
Qed.

Lemma stepRequest_FlagOk env k r g :
  FlagOk g -> FlagOk (snd (stepRequest env k r g)).
Proof.
  unfold stepRequest. intro H.
  destruct (pc r) as [| |i results pending|results|results stats|outcome].
  - destruct (modelLoaded g); [now apply startScan_FlagOk|].
    now apply startLoader_FlagOk.
  - destruct (modelLoadingPromise g) as [| | | | | e | [u|e]]; try exact H.
    now apply startScan_FlagOk.
  - destruct (i + batchSize <? _); [now apply issueBatch_FlagOk|exact H].
  - destruct (storageOk env); exact H.
  - destruct (storageOk env); exact H.
  - exact H.
Qed.

Lemma run_FlagOk env schedule : forall cfg,
  FlagOk (globals cfg) -> FlagOk (globals (run env schedule cfg)).
Proof.
  induction schedule as [|t schedule IH]; intros cfg H; simpl; auto.
  apply IH. destruct t as [| |k]; simpl.
  - now apply startLoader_FlagOk.
  - now apply stepLoader_FlagOk.
  - destruct (nth_error (requests cfg) k) as [r|]; [|exact H].
    pose proof (stepRequest_FlagOk env k r (globals cfg) H) as H1.
    destruct (stepRequest env k r (globals cfg)) as [pc' g']. exact H1.
Qed.

End OverlapFacts.

(* ================================================================= *)
(** ** Overlapping requests: one load, one failure *)

Module OverlapProperties.
Import Text Prob Background Scan Concurrent Invariants Overlap OverlapFacts Demo Samples.

(** X13: whatever the outside does and however the requests and the loader
    interleave, the loader is started at most once, [modelLoaded] is true
    only with a classifier at hand, and no request ends with 'Model not
    available'. *)
Theorem overlapping_requests_never_lack_the_model
    (env : Env) (schedule : list Task) (texts : list jsstring) :
  let cfg := run env schedule (arrive texts) in
  loads (globals cfg) <= 1 /\
  (modelLoaded (globals cfg) = true -> classifier (globals cfg) <> None) /\
  Forall (fun r => pc r <> Done (Throw ModelNotAvailable)) (requests cfg).
Proof.
  assert (H0 : LoadOk (globals (arrive texts)) /\
               Forall hasModelOrWaits (requests (arrive texts))).
  { split; [split; [reflexivity|discriminate]|].
    apply Forall_forall. intros r Hin. apply in_map_iff in Hin.
    destruct Hin as [t [<- _]]. discriminate. }
  destruct (run_LoadOk env schedule _ H0) as [[Hp Hm] Hr].
  simpl. split; [|split; [exact Hm|exact Hr]].
  destruct (modelLoadingPromise (globals (run env schedule (arrive texts))))
    as [| | | | | e | [u|e]]; lia.
Qed.

(** X14: when the import or the pipeline fails, then under every interleaving
    no classifier call is ever made, and every request either still waits or
    has failed with the one reason the promise was rejected with. *)
Theorem failed_load_fails_every_overlapping_request
    (env : Env) (schedule : list Task) (texts : list jsstring) :
  importOk env = false \/ pipeline env = None ->
  let cfg := run env schedule (arrive texts) in
  engineCalls (globals cfg) = [] /\
  Forall (fun r => pc r = Arrived \/ pc r = AwaitModel \/
                   exists e, pc r = Done (Throw e) /\
                             modelLoadingPromise (globals cfg) = Settled (Throw e))
         (requests cfg).
Proof.
  intro Henv.
  assert (H0 : LoadFails env (globals (arrive texts)) /\
               Forall (failedWithLoad (globals (arrive texts))) (requests (arrive texts))).
  { split; [repeat split|].
    apply Forall_forall. intros r Hin. apply in_map_iff in Hin.
    destruct Hin as [t [<- _]]. exact I. }
  destruct (run_LoadFails env schedule _ Henv H0) as [[_ [_ [Hlog _]]] Hr].
  simpl. split; [exact Hlog|].
  eapply Forall_impl; [|exact Hr]. intros r H. unfold failedWithLoad in H.
  destruct (pc r) as [| | | | |[rs|e]]; try contradiction; eauto.
Qed.

Lemma failed_load_fails_every_overlapping_request_witness :
  let cfg := run brokenEnv mixedTurns (arrive [oneSentence; twoSentences]) in
  engineCalls (globals cfg) = [] /\
  Forall (fun r => pc r = Arrived \/ pc r = AwaitModel \/
                   exists e, pc r = Done (Throw e) /\
                             modelLoadingPromise (globals cfg) = Settled (Throw e))
         (requests cfg).
Proof.
  apply (failed_load_fails_every_overlapping_request brokenEnv mixedTurns
           [oneSentence; twoSentences]).
  right. reflexivity.
Defined.

(** X18: whatever the outside does and however the requests and the loader
    interleave, the status answered to a tab follows the loading promise: it
    is 'neither loaded nor loading' exactly as long as no load has been
    started; it is 'loading' while the import or the pipeline is awaited and
    in and after the [catch] of a load that failed; it is 'loaded' once the
    pipeline has resolved, also while the store of the flag and the warm-up
    are awaited. *)
Theorem status_follows_the_loading_promise
    (env : Env) (schedule : list Task) (texts : list jsstring) :
  let g := globals (run env schedule (arrive texts)) in
  statusOf g
  = match modelLoadingPromise g with
    | NoPromise => (false, false)
    | AwaitingImport | AwaitingPipeline | AwaitingCatchStore _
    | Settled (Throw _) => (false, true)
    | AwaitingStore | AwaitingWarmup | Settled (Return _) => (true, false)
    end /\
  (statusOf g = (false, false) <-> loads g = 0).
Proof.
  intro g.
  assert (H : FlagOk g).
  { apply run_FlagOk. split; reflexivity. }
  unfold FlagOk in H. unfold statusOf.
  destruct (modelLoadingPromise g) as [| | | | | e | [u|e]];
    destruct H as [Hn Hl]; rewrite Hl, Hn; simpl;
    (split; [reflexivity|]); split; intro H; try discriminate; reflexivity.
Qed.

End OverlapProperties.

(* ================================================================= *)
(** ** Steps up to the write of the statistics *)

Module RaceFacts.
Import Text Prob Background Scan Concurrent Invariants ConcurrentFacts Race.

Lemma issueBatch_storage k sentences i results g :
  storage (snd (issueBatch k sentences i results g)) = storage g /\
  beforeRead (fst (issueBatch k sentences i results g)) = true.
Proof.
  unfold issueBatch. destruct (classifier g); simpl; auto.
Qed.

(** A step of a request that has not read the statistics leaves the storage
    area alone; after it the request still has not read them, or has just
    read them and waits for its write. *)
Lemma stepRequest_toward env c k r g :
  storageOk env = true -> Ready c g ->
  List.length (matchSentences (text r)) <> 0 ->
  beforeRead (pc r) = true ->
  storage (snd (stepRequest env k r g)) = storage g /\
  (beforeRead (fst (stepRequest env k r g)) = true \/
   exists rs, fst (stepRequest env k r g)
              = AwaitStatsSet rs (statsAfter rs (storage g))).
Proof.
  intros Hs [H1 [H2 H3]] Hn Hb.
  assert (Hscan : storage (snd (startScan k (text r) g)) = storage g /\
                  beforeRead (fst (startScan k (text r) g)) = true).
  { unfold startScan. rewrite H2.
    destruct (Nat.eqb_spec (List.length (matchSentences (text r))) 0) as [E|_];
      [contradiction|].
    apply issueBatch_storage. }
  unfold stepRequest.
  destruct (pc r) as [| |i results pending|results|results stats|outcome];
    try discriminate.
  - rewrite H1. destruct Hscan; auto.
  - rewrite H3. destruct Hscan; auto.
  - destruct (i + batchSize <? _).
    + destruct (issueBatch_storage k (matchSentences (text r)) (i + batchSize)
                  (results ++ nonNull pending) g); auto.
    + simpl. auto.
  - rewrite Hs. simpl. eauto.
Qed.

(** Turns given to request [k] alone bring it to the write of the statistics
    it has read, and leave the storage area and the other requests as they
    are. *)
Lemma reach_write env c k m : forall cfg r,
  storageOk env = true -> Ready c (globals cfg) ->
  nth_error (requests cfg) k = Some r ->
  List.length (matchSentences (text r)) <> 0 ->
  beforeRead (pc r) = true ->
  stepsLeft (text r) (pc r) <= m ->
  exists s rs,
    let cfg' := run env (repeat (Req k) s) cfg in
    Ready c (globals cfg') /\
    storage (globals cfg') = storage (globals cfg) /\
    nth_error (requests cfg') k
    = Some {| text := text r;
              pc := AwaitStatsSet rs (statsAfter rs (storage (globals cfg))) |} /\
    (forall j, j <> k -> nth_error (requests cfg') j = nth_error (requests cfg) j).
Proof.
  induction m as [|m IH]; intros cfg r Hs Hready Hk Hn Hb Hm.
  - destruct (pc r); simpl in Hm; try discriminate; lia.
  - destruct (stepRequest_progress env c k r (globals cfg) Hs Hready) as [Hr Hp].
    destruct (stepRequest_toward env c k r (globals cfg) Hs Hready Hn Hb)
      as [Hst Hnext].
    destruct (stepRequest env k r (globals cfg)) as [pc' g'] eqn:E.
    cbn [fst snd] in *.
    set (cfg1 := {| globals := g';
                    requests := setNth k {| text := text r; pc := pc' |} (requests cfg) |}).
    assert (Hstep : run env [Req k] cfg = cfg1).
    { simpl. rewrite Hk, E. reflexivity. }
    assert (Hk1 : nth_error (requests cfg1) k = Some {| text := text r; pc := pc' |})
      by (apply (nth_error_setNth_same _ _ _ _ Hk)).
    destruct Hnext as [Hb'|[rs Hrs]].
    + destruct (IH cfg1 _ Hs Hr Hk1) as [s [rs [Hr' [Hst' [Hk' Hothers]]]]];
        cbn [text pc]; auto.
      { destruct Hp as [Hlt|[H0 _]]; [lia|].
        destruct (pc r); simpl in H0; try discriminate; lia. }
      exists (S s), rs. cbn [repeat]. change (Req k :: repeat (Req k) s)
        with ([Req k] ++ repeat (Req k) s).
      rewrite run_app, Hstep.
      split; [exact Hr'|]. split; [now rewrite Hst'|]. split.
      * rewrite Hk'. unfold cfg1. cbn [globals text]. now rewrite Hst.
      * intros j Hj. rewrite (Hothers j Hj). now apply nth_error_setNth_other.
    + exists 1, rs. change (repeat (Req k) 1) with [Req k]. rewrite Hstep.
      split; [exact Hr|]. split; [exact Hst|]. split.
      * rewrite Hk1, Hrs. reflexivity.
      * intros j Hj. now apply nth_error_setNth_other.
Qed.

Lemma statsAfter_total rs st :
  total (statsAfter rs st)
  = total (match st_analysisStats st with Some a => a | None => noStats end)
    + List.length rs.
Proof. unfold statsAfter. apply LifetimeFacts.total_fold. Qed.

End RaceFacts.

(* ================================================================= *)
(** ** Overlapping scans and the statistics *)

Module RaceProperties.
Import Text Prob Background Scan Concurrent Invariants ConcurrentFacts Race RaceFacts Demo Samples.

(** X15: two overlapping scans can lose statistics.  When everything outside
    works and a scan of [text] yields at least one result, there is an
    interleaving of two requests for [text] in which both are answered with
    all their results, yet [analysisStats.total] ends as the number of
    results of one scan: both read the statistics before either writes. *)
Theorem overlapping_scans_can_lose_statistics
    (env : Env) (c : Classifier) (text : jsstring) :
  Healthy env c ->
  analyzeAll c (matchSentences text) <> [] ->
  exists schedule,
    let cfg := run env schedule (arrivals 2 text) in
    Forall (fun r => pc r = Done (Return (analyzeAll c (matchSentences text))))
           (requests cfg) /\
    List.length (requests cfg) = 2 /\
    storedTotal (globals cfg) = List.length (analyzeAll c (matchSentences text)).
Proof.
  intros Hh Hres. pose proof Hh as [Hi [Hp [Hs Hw]]].
  assert (Hn : List.length (matchSentences text) <> 0).
  { intro E. apply Hres. destruct (matchSentences text); [reflexivity|discriminate]. }
  set (boot := [Boot; Loader; Loader; Loader; Loader]).
  set (cfg0 := run env boot (arrivals 2 text)).
  assert (Hready : Ready c (globals cfg0)).
  { unfold cfg0, boot. simpl. unfold stepLoader at 4. simpl. rewrite Hi.
    unfold stepLoader at 3. simpl. rewrite Hp.
    unfold stepLoader at 2. simpl. rewrite Hs.
    unfold stepLoader. simpl.
    destruct (c warmupText); [|now elim Hw]. repeat split. }
  assert (Hreqs : requests cfg0 = requests (arrivals 2 text)) by reflexivity.
  assert (Hstats0 : st_analysisStats (storage (globals cfg0)) = None).
  { unfold cfg0, boot. simpl. unfold stepLoader at 4. simpl. rewrite Hi.
    unfold stepLoader at 3. simpl. rewrite Hp.
    unfold stepLoader at 2. simpl. rewrite Hs.
    unfold stepLoader. simpl.
    destruct (c warmupText); [|now elim Hw]. reflexivity. }
  (* request 0 up to its write *)
  assert (Hpre0 : nth_error (requests cfg0) 0 = Some {| text := text; pc := Arrived |})
    by (rewrite Hreqs; reflexivity).
  destruct (reach_write env c 0 (List.length (matchSentences text) + 4) cfg0
              _ Hs Hready Hpre0 Hn eq_refl (le_n _))
    as [s0 [rs0 [Hready1 [Hst1 [Hk0 Hoth0]]]]].
  set (cfg1 := run env (repeat (Req 0) s0) cfg0) in *.
  (* request 1 up to its write *)
  assert (Hpre1 : nth_error (requests cfg1) 1 = Some {| text := text; pc := Arrived |})
    by (rewrite (Hoth0 1) by lia; rewrite Hreqs; reflexivity).
  destruct (reach_write env c 1 (List.length (matchSentences text) + 4) cfg1
              _ Hs Hready1 Hpre1 Hn eq_refl (le_n _))
    as [s1 [rs1 [Hready2 [Hst2 [Hk1 Hoth1]]]]].
  set (cfg2 := run env (repeat (Req 1) s1) cfg1) in *.
  assert (Hk0' : nth_error (requests cfg2) 0
                 = Some {| text := text;
                           pc := AwaitStatsSet rs0 (statsAfter rs0 (storage (globals cfg0))) |}).
  { rewrite (Hoth1 0) by lia. exact Hk0. }
  cbn [Concurrent.text] in Hk1.
  rewrite Hst1 in Hk1.
  exists (boot ++ repeat (Req 0) s0 ++ repeat (Req 1) s1 ++ [Req 0; Req 1]).
  rewrite !run_app. fold cfg0. fold cfg1. fold cfg2.
  (* what the invariant says of the whole run *)
  pose proof (run_inv env c text 2
                (boot ++ repeat (Req 0) s0 ++ repeat (Req 1) s1 ++ [Req 0; Req 1])
                _ Hh (arrivals_inv c text 2)) as Hinv.
  rewrite !run_app in Hinv. fold cfg0 in Hinv. fold cfg1 in Hinv. fold cfg2 in Hinv.
  destruct Hinv as [_ [Hlen [_ Hreq]]].
  (* the last two turns *)
  assert (Hlast : exists g,
            run env [Req 0; Req 1] cfg2
            = {| globals := g;
                 requests := [ {| text := text; pc := Done (Return rs0) |};
                               {| text := text; pc := Done (Return rs1) |} ] |} /\
            st_analysisStats (storage g)
            = Some (statsAfter rs1 (storage (globals cfg0)))).
  { assert (Hl2 : List.length (requests cfg2) = 2).
    { destruct (nth_error (requests cfg2) 2) eqn:E2.
      - rewrite (Hoth1 2) in E2 by lia. rewrite (Hoth0 2) in E2 by lia.
        rewrite Hreqs in E2. discriminate.
      - apply nth_error_None in E2.
        assert (1 < List.length (requests cfg2))
          by (apply nth_error_Some; rewrite Hk1; discriminate).
        lia. }
    destruct (requests cfg2) as [|a [|b [|x rest]]] eqn:Er;
      try discriminate Hl2.
    simpl in Hk0', Hk1. injection Hk0' as ->. injection Hk1 as ->.
    unfold run. cbn [fold_left step]. rewrite Er. cbn [nth_error].
    unfold stepRequest at 2. cbn [pc]. rewrite Hs.
    cbn [setNth nth_error requests Concurrent.text].
    unfold stepRequest. cbn [pc]. rewrite Hs. cbn [setNth Concurrent.text].
    eexists. split; reflexivity. }
  destruct Hlast as [g [Hrun Hstats]].
  rewrite Hrun in Hreq, Hlen |- *. cbn [requests globals] in *.
  pose proof (Hreq 0 _ eq_refl) as [_ [Hr0 _]].
  pose proof (Hreq 1 _ eq_refl) as [_ [Hr1 _]].
  cbn [pc] in Hr0, Hr1. subst rs0 rs1.
  split; [repeat constructor|]. split; [reflexivity|].
  unfold storedTotal. rewrite Hstats, statsAfter_total, Hstats0. reflexivity.
Qed.

Lemma overlapping_scans_can_lose_statistics_witness :
  exists schedule,
    let cfg := run calmEnv schedule (arrivals 2 oneSentence) in
    Forall (fun r => pc r = Done (Return (analyzeAll steadyClassifier
                                            (matchSentences oneSentence))))
           (requests cfg) /\
    List.length (requests cfg) = 2 /\
    storedTotal (globals cfg)
    = List.length (analyzeAll steadyClassifier (matchSentences oneSentence)).
Proof.
  apply (overlapping_scans_can_lose_statistics calmEnv steadyClassifier oneSentence).
  - split; [reflexivity|]. split; [reflexivity|]. split; [reflexivity|discriminate].
  - vm_compute. discriminate.
Defined.

End RaceProperties.

(* ================================================================= *)
(** ** Facts about the background script of the setup script *)

Module SetupFacts.
Import Text Prob Background Scan Lifetime FeedbackLife.
Local Open Scope async_scope.


Lemma analyzeEach_without_classifier sentences : forall results w,
  classifier w = None ->
  SetupScript.analyzeEach sentences results w = (Return results, w).
Proof.
  induction sentences as [|s rest IH]; intros results w Hc; [reflexivity|].
  cbn [SetupScript.analyzeEach]. unfold bind, SetupScript.analyzeSentence.
  destruct (List.length (trim s) <? 15).
  - unfold ret at 1. now apply IH.
  - rewrite Hc. unfold ret at 1. now apply IH.
Qed.

End SetupFacts.

(* ================================================================= *)
(** ** The background script of the setup script *)

Module SetupProperties.
Import Text Prob Background Scan Lifetime FeedbackLife SetupFacts Demo Samples.
Local Open Scope async_scope.



(** X17: in the background script of the setup script a load whose import or
    pipeline fails is silent: the promise is fulfilled all the same,
    [modelLoaded] stays false, and every scan from then on is answered with
    the empty list, without a classifier call and without a second load, as
    long as the storage area works. *)
Theorem setup_script_scans_nothing_after_failed_import
    (env : Env) (w : World) :
  importOk env = false \/ pipeline env = None ->
  modelLoadingPromise w = None -> classifier w = None ->
  let w1 := snd (SetupScript.initializeModel env w) in
  modelLoadingPromise w1 = Some (Return tt) /\
  modelLoaded w1 = false /\
  forall env' text, storageOk env' = true ->
    exists w2,
      SetupScript.handleAnalyze env' text w1 = (Return [], w2) /\
      engineCalls w2 = engineCalls w /\ loads w2 = S (loads w).
Proof.
  intros Henv Hp Hc.
  assert (Hload : exists w1,
            SetupScript.initializeModel env w = (Return tt, w1) /\
            modelLoadingPromise w1 = Some (Return tt) /\
            modelLoaded w1 = false /\ classifier w1 = None /\
            engineCalls w1 = engineCalls w /\ loads w1 = S (loads w)).
  { unfold SetupScript.initializeModel. rewrite Hp.
    unfold SetupScript.loaderBody, tryCatch, bind, throw, ret, modify.
    destruct (importOk env) eqn:Ei.
    - destruct Henv as [Hi|Hpipe]; [discriminate|]. rewrite Hpipe.
      simpl. eexists. repeat split; auto.
    - simpl. eexists. repeat split; auto. }
  destruct Hload as [w1 [E [Hp1 [Hl1 [Hc1 [Hcalls Hloads]]]]]].
  rewrite E. cbn [snd]. split; [exact Hp1|]. split; [exact Hl1|].
  intros env' text Hs.
  unfold SetupScript.handleAnalyze, bind at 1. rewrite Hl1.
  unfold SetupScript.initializeModel. rewrite Hp1.
  unfold bind at 1. rewrite (analyzeEach_without_classifier _ _ _ Hc1).
  unfold bind, SetupScript.updateStats, bind, storageGet, storageSet, ret.
  rewrite Hs. eexists. split; [reflexivity|]. simpl. auto.
Qed.

Lemma setup_script_scans_nothing_after_failed_import_witness :
  let w1 := snd (SetupScript.initializeModel brokenEnv initialWorld) in
  modelLoadingPromise w1 = Some (Return tt) /\
  modelLoaded w1 = false /\
  forall env' text, storageOk env' = true ->
    exists w2,
      SetupScript.handleAnalyze env' text w1 = (Return [], w2) /\
      engineCalls w2 = engineCalls initialWorld /\ loads w2 = S (loads initialWorld).
Proof.
  apply (setup_script_scans_nothing_after_failed_import brokenEnv initialWorld);
    [right|..]; reflexivity.
Defined.

End SetupProperties.

